(** * easy-fs-extracter: a shallow embedding of [main.py]

    The extractor reads an easy-fs disk image (512-byte blocks, 128-byte
    inode records, 32-byte directory entries) and either restores the
    directory tree or dumps every allocated non-directory inode.

    Conventions of the embedding:
    - the image opened with ["rb"] is a [list byte]; [image.seek(o)] followed
      by [image.read(n)] is [seek_read image o n] (Python returns the bytes
      that are there, possibly fewer than [n], possibly none);
    - every integer the program computes with comes out of an unsigned
      [struct] field or is built from such values by [+], [*] and [<<], so
      it is an [N]; only [level] is decremented and is a [Z];
    - a Python [str] is represented by its UTF-8 encoding as a [string];
    - a raised exception is [Raise e]; the host file system and the console
      are an event trace driven through a small state-and-error monad;
    - [print] is rich's: it reads its text as console markup and raises
      [MarkupError] on a closing tag that matches no open tag.  The tags the
      program writes itself are balanced, so a text can be rejected only
      through a [[] brought in by an interpolated value; whether rich then
      rejects it is asked of the host;
    - recursion is bounded by [fuel], the number of Python frames still
      available; running out of it is [RecursionError]. *)

From Stdlib Require Import NArith ZArith List String Ascii Bool Lia ZifyNat ZifyN.
From Stdlib Require Import Sorting.Sorted HexString DecimalString.
From Stdlib.Strings Require Import Byte.
Import ListNotations.

Local Open Scope N_scope.

(** ** Constants (main.py, lines 8-17) *)

Definition bytes := list byte.

Definition BLOCK_SIZE : N := 512.
Definition DISK_INODE_SIZE : N := 128.
Definition DIR_ENTRY_SIZE : N := 32.
Definition MAGIC_NUMBER : N := 0x3B800001.

(** ** Exceptions and results *)

Inductive exn : Type :=
| StructError          (* struct.error: buffer of the wrong size *)
| UnicodeDecodeError   (* bytes.decode() on bytes that are not UTF-8 *)
| RecursionError       (* the interpreter's frame budget is exhausted *)
| OSError              (* a host file-system call failed *)
| MarkupError.         (* rich.errors.MarkupError: print() rejected its text *)

Inductive result (A : Type) : Type :=
| Ok (a : A)
| Raise (e : exn).
Arguments Ok {A} a.
Arguments Raise {A} e.

Definition rbind {A B} (r : result A) (k : A -> result B) : result B :=
  match r with
  | Ok a => k a
  | Raise e => Raise e
  end.

Declare Scope result_scope.
Delimit Scope result_scope with result.
Notation "x <- r ;; k" := (rbind r (fun x => k))
  (at level 61, r at next level, right associativity) : result_scope.

(** ** The image as a random-access byte sequence *)

(** [image.seek(off); image.read(n)]. *)
Definition seek_read (image : bytes) (off n : N) : bytes :=
  firstn (N.to_nat n) (skipn (N.to_nat off) image).

(** Python slice [data[off : off + n]] on a bytes object. *)
Definition slice (data : bytes) (off n : N) : bytes :=
  firstn (N.to_nat n) (skipn (N.to_nat off) data).

(** ** [struct.unpack] for the little-endian formats of the program *)

Inductive field : Type :=
| fB               (* B: one unsigned byte *)
| fI               (* I: unsigned 32-bit little-endian *)
| fx (n : nat)     (* nx: n pad bytes, no value *)
| fs (n : nat).    (* ns: n raw bytes *)

Inductive value : Type :=
| VInt (n : N)
| VBytes (b : bytes).

Definition field_size (f : field) : nat :=
  match f with
  | fB => 1
  | fI => 4
  | fx n => n
  | fs n => n
  end.

Definition calcsize (fmt : list field) : nat :=
  fold_right (fun f acc => (field_size f + acc)%nat) 0%nat fmt.

(** Little-endian value of a byte string. *)
Fixpoint le_uint (bs : bytes) : N :=
  match bs with
  | [] => 0
  | b :: rest => Byte.to_N b + 256 * le_uint rest
  end.

Fixpoint unpack_fields (fmt : list field) (data : bytes) : list value :=
  match fmt with
  | [] => []
  | f :: fmt' =>
      let here := firstn (field_size f) data in
      let rest := unpack_fields fmt' (skipn (field_size f) data) in
      match f with
      | fB | fI => VInt (le_uint here) :: rest
      | fx _ => rest
      | fs _ => VBytes here :: rest
      end
  end.

(** [struct.unpack(fmt, data)]: the buffer must have exactly the size the
    format describes. *)
Definition unpack (fmt : list field) (data : bytes) : result (list value) :=
  if Nat.eqb (List.length data) (calcsize fmt)
  then Ok (unpack_fields fmt data)
  else Raise StructError.

Definition SUPER_BLOCK_FMT : list field := repeat fI 6 ++ [fx 488].      (* "<6I488x" *)
Definition DISK_INODE_FMT : list field :=
  [fB; fx 3; fI] ++ repeat fI 27 ++ [fI; fI; fI].                         (* "<B3xI27IIII" *)
Definition INDIRECT_BLOCK_FMT : list field := repeat fI 128.             (* "<128I" *)
Definition DIR_ENTRY_FMT : list field := [fs 28; fI].                    (* "<28sI" *)

(** Reading the components of an unpacked tuple. *)
Definition as_int (v : value) : N :=
  match v with
  | VInt n => n
  | VBytes _ => 0
  end.

Definition as_bytes (v : value) : bytes :=
  match v with
  | VInt _ => []
  | VBytes b => b
  end.

Definition int_at (t : list value) (i : nat) : N := as_int (nth i t (VInt 0)).
Definition bytes_at (t : list value) (i : nat) : bytes := as_bytes (nth i t (VInt 0)).
Definition ints (t : list value) : list N := map as_int t.

(** ** Inodes (lines 20-35) *)

Record Inode : Type := mkInode {
  file_type : N;
  size : N;
  direct : list N;
  indirect1 : N;
  indirect2 : N;
  indirect3 : N
}.

(** ** Indirect blocks (lines 38-56) *)

(** The loop of lines 47-54: entries in array order, [break] at the first 0,
    [data += payload index] otherwise. *)
Fixpoint indirect_loop (payload : N -> result bytes) (indices : list N)
    (data : bytes) : result bytes :=
  match indices with
  | [] => Ok data
  | index :: rest =>
      if index =? 0 then Ok data
      else match payload index with
           | Ok d => indirect_loop payload rest (data ++ d)
           | Raise e => Raise e
           end
  end.

Fixpoint read_indirect_block (fuel : nat) (image : bytes)
    (indirect_block_index : N) (level : Z) : result bytes :=
  match fuel with
  | O => Raise RecursionError
  | S fuel' =>
      let indirect_block_data :=
        seek_read image (indirect_block_index * BLOCK_SIZE) BLOCK_SIZE in
      (indirect_block_indices <- unpack INDIRECT_BLOCK_FMT indirect_block_data ;;
       indirect_loop
         (fun index =>
            if (level =? 1)%Z
            then Ok (seek_read image (index * BLOCK_SIZE) BLOCK_SIZE)
            else read_indirect_block fuel' image index (level - 1)%Z)
         (ints indirect_block_indices) [])%result
  end.

(** ** Content of an inode (lines 59-74) *)

(** The loop of lines 62-66 over [inode.direct]. *)
Fixpoint direct_loop (image : bytes) (blocks : list N) (data : bytes) : bytes :=
  match blocks with
  | [] => data
  | block_index :: rest =>
      if block_index =? 0 then data
      else direct_loop image rest
             (data ++ seek_read image (block_index * BLOCK_SIZE) BLOCK_SIZE)
  end.

(** [if ptr != 0: data += read_indirect_block(image, ptr, level)]. *)
Definition add_indirect (fuel : nat) (image : bytes) (ptr : N) (level : Z)
    (data : bytes) : result bytes :=
  if ptr =? 0 then Ok data
  else (d <- read_indirect_block fuel image ptr level ;; Ok (data ++ d))%result.

Definition extract_inode_data (fuel : nat) (image : bytes) (inode : Inode)
    : result bytes :=
  (let data := direct_loop image (direct inode) [] in
   data <- add_indirect fuel image (indirect1 inode) 1 data ;;
   data <- add_indirect fuel image (indirect2 inode) 2 data ;;
   data <- add_indirect fuel image (indirect3 inode) 3 data ;;
   Ok (firstn (N.to_nat (size inode)) data))%result.

(** ** Text: [bytes.decode()] and [os.path.join] *)

Definition in_range (b : byte) (lo hi : N) : bool :=
  (lo <=? Byte.to_N b) && (Byte.to_N b <=? hi).

(** Well-formed UTF-8 as the strict decoder accepts it: shortest form only,
    no surrogates, nothing above U+10FFFF. *)
Fixpoint utf8_valid (bs : bytes) : bool :=
  match bs with
  | [] => true
  | b0 :: r0 =>
      if in_range b0 0x00 0x7F then utf8_valid r0
      else if in_range b0 0xC2 0xDF then
        match r0 with
        | b1 :: r1 => in_range b1 0x80 0xBF && utf8_valid r1
        | _ => false
        end
      else if in_range b0 0xE0 0xEF then
        match r0 with
        | b1 :: b2 :: r2 =>
            in_range b1 (if in_range b0 0xE0 0xE0 then 0xA0 else 0x80)
                        (if in_range b0 0xED 0xED then 0x9F else 0xBF)
            && in_range b2 0x80 0xBF && utf8_valid r2
        | _ => false
        end
      else if in_range b0 0xF0 0xF4 then
        match r0 with
        | b1 :: b2 :: b3 :: r3 =>
            in_range b1 (if in_range b0 0xF0 0xF0 then 0x90 else 0x80)
                        (if in_range b0 0xF4 0xF4 then 0x8F else 0xBF)
            && in_range b2 0x80 0xBF && in_range b3 0x80 0xBF && utf8_valid r3
        | _ => false
        end
      else false
  end.

(** [b.decode()]: UTF-8, errors="strict". *)
Definition py_decode (b : bytes) : result string :=
  if utf8_valid b then Ok (string_of_list_byte b) else Raise UnicodeDecodeError.

(** [name.split(b"\x00", 1)[0]]: the bytes before the first null byte, all
    of them when there is none. *)
Fixpoint before_null (name : bytes) : bytes :=
  match name with
  | [] => []
  | b :: rest => if Byte.eqb b x00 then [] else b :: before_null rest
  end.

Fixpoint ends_with_slash (s : string) : bool :=
  match s with
  | EmptyString => false
  | String c EmptyString => Ascii.eqb c "/"
  | String _ rest => ends_with_slash rest
  end.

(** [os.path.join(a, b)] of posixpath. *)
Definition path_join (a b : string) : string :=
  if String.prefix "/" b then b
  else if String.eqb a EmptyString || ends_with_slash a then (a ++ b)%string
  else (a ++ "/" ++ b)%string.

Definition dec (n : N) : string := NilZero.string_of_uint (N.to_uint n).
Definition hex (n : N) : string := HexString.of_N n.

(** ** The host: file system and console *)

Inductive event : Type :=
| EMkdir (path : string)                 (* os.mkdir(path) succeeded *)
| EWrite (path : string) (data : bytes)  (* open(path, "wb") and write(data) *)
| EPrint (text : string).                (* print(text) *)

Definition trace := list event.

(** What the host answers, given everything the run has done so far. *)
Record host : Type := mkHost {
  path_exists : trace -> string -> bool;
  mkdir_fails : trace -> string -> bool;
  open_fails : trace -> string -> bool;
  markup_rejects : string -> bool   (* rich raises MarkupError on this text *)
}.

Definition M (A : Type) : Type := trace -> result A * trace.

Definition ret {A} (a : A) : M A := fun t => (Ok a, t).

Definition bind {A B} (m : M A) (k : A -> M B) : M B :=
  fun t =>
    match m t with
    | (Ok a, t') => k a t'
    | (Raise e, t') => (Raise e, t')
    end.

Definition lift {A} (r : result A) : M A := fun t => (r, t).

Declare Scope host_scope.
Delimit Scope host_scope with host.
Notation "x <- m ;; k" := (bind m (fun x => k))
  (at level 61, m at next level, right associativity) : host_scope.
Notation "m ;; k" := (bind m (fun _ => k))
  (at level 61, right associativity) : host_scope.

Definition os_path_exists (h : host) (path : string) : M bool :=
  fun t => (Ok (path_exists h t path), t).

Definition os_mkdir (h : host) (path : string) : M unit :=
  fun t => if mkdir_fails h t path then (Raise OSError, t)
           else (Ok tt, t ++ [EMkdir path]).

(** [with open(path, "wb") as f: f.write(data)]; a failure of the write
    after a successful open is not modelled. *)
Definition write_file (h : host) (path : string) (data : bytes) : M unit :=
  fun t => if open_fails h t path then (Raise OSError, t)
           else (Ok tt, t ++ [EWrite path data]).

(** The text holds an opening square bracket. *)
Fixpoint has_bracket (s : string) : bool :=
  match s with
  | EmptyString => false
  | String c rest => Ascii.eqb c "[" || has_bracket rest
  end.

(** [print(text)] of rich, [text] being an f-string into which [values] were
    interpolated.  rich parses [text] as markup before it writes it, and
    raises [MarkupError] when a closing tag matches no open tag.  The
    program's templates open and close one tag each ([[+]], [[-]] and [[!]]
    are not tags for rich), so the text is rejected only if an interpolated
    value brings in a [[] and rich's parser, [markup_rejects], says so.
    Failures of the console itself are not modelled. *)
Definition print_fails (h : host) (text : string) (values : list string) : bool :=
  existsb has_bracket values && markup_rejects h text.

Definition print (h : host) (text : string) (values : list string) : M unit :=
  fun t => if print_fails h text values then (Raise MarkupError, t)
           else (Ok tt, t ++ [EPrint text]).

(** [if not os.path.exists(p): os.mkdir(p)]. *)
Definition ensure_dir (h : host) (path : string) : M unit :=
  (present <- os_path_exists h path ;;
   if negb present then os_mkdir h path else ret tt)%host.

(** A [for] loop whose body runs for its effects. *)
Fixpoint for_each {A} (xs : list A) (body : A -> M unit) : M unit :=
  match xs with
  | [] => ret tt
  | x :: rest => (body x ;; for_each rest body)%host
  end.

(** [range(start, stop, step)] for a positive step. *)
Definition py_range (start stop step : N) : list N :=
  map (fun k => start + step * N.of_nat k)
      (seq 0 (N.to_nat ((stop - start + (step - 1)) / step))).

(** ** Inode records (lines 78-89 and 124-135) *)

Definition load_inode (image : bytes) (inode_index : N) : result Inode :=
  (let inode_data :=
     seek_read image (BLOCK_SIZE * 2 + DISK_INODE_SIZE * inode_index)
       DISK_INODE_SIZE in
   unpacked_data <- unpack DISK_INODE_FMT inode_data ;;
   Ok {| file_type := int_at unpacked_data 0;
         size := int_at unpacked_data 1;
         direct := ints (firstn 27 (skipn 2 unpacked_data));
         indirect1 := int_at unpacked_data 29;
         indirect2 := int_at unpacked_data 30;
         indirect3 := int_at unpacked_data 31 |})%result.

(** ** Directory entries (lines 96-100) *)

Definition decode_dir_entry (raw : bytes) : result (string * N) :=
  (dir_entry <- unpack DIR_ENTRY_FMT raw ;;
   let name := bytes_at dir_entry 0 in
   let child_inode_index := int_at dir_entry 1 in
   name <- py_decode (before_null name) ;;
   Ok (name, child_inode_index))%result.

(** ** Restoring the tree (lines 77-106) *)

Definition extracted_msg (path : string) : string :=
  ("[green][+] Extracted file to " ++ path ++ "[/green]")%string.

Fixpoint extract_directory (fuel : nat) (h : host) (image : bytes)
    (inode_index : N) (output_path : string) : M unit :=
  match fuel with
  | O => lift (Raise RecursionError)
  | S fuel' =>
      (inode <- lift (load_inode image inode_index) ;;
       if file_type inode =? 1 then
         ensure_dir h output_path ;;
         directory_data <- lift (extract_inode_data fuel' image inode) ;;
         for_each (py_range (DIR_ENTRY_SIZE * 2) (size inode) DIR_ENTRY_SIZE)
           (fun offset =>
              entry <- lift (decode_dir_entry
                               (slice directory_data offset DIR_ENTRY_SIZE)) ;;
              extract_directory fuel' h image (snd entry)
                (path_join output_path (fst entry)))
       else if file_type inode =? 0 then
         file_data <- lift (extract_inode_data fuel' image inode) ;;
         write_file h output_path file_data ;;
         print h (extracted_msg output_path) [output_path]
       else ret tt)%host
  end.

(** ** Flat extraction (lines 109-146) *)

(** The comprehension of lines 113-118, with [enumerate] counting from
    [index]. *)
Fixpoint bitmap_indices (index : N) (inode_bitmap : list N) : list N :=
  match inode_bitmap with
  | [] => []
  | byte :: rest =>
      map (fun bit => index * 8 + bit)
          (filter (fun bit => negb (N.land byte (N.shiftl 1 bit) =? 0))
                  (py_range 0 8 1))
      ++ bitmap_indices (index + 1) rest
  end.

Definition inode_indices (inode_bitmap_data : bytes) : list N :=
  bitmap_indices 0 (map Byte.to_N inode_bitmap_data).

(** The body of the loop of lines 123-146; the progress bar of [track] is
    not part of the trace. *)
Definition extract_one (fuel : nat) (h : host) (image : bytes)
    (output_dir : string) (inode_index : N) : M unit :=
  (inode <- lift (load_inode image inode_index) ;;
   if file_type inode =? 1 then ret tt
   else
     file_data <- lift (extract_inode_data fuel image inode) ;;
     let file_path := path_join output_dir ("inode" ++ dec inode_index) in
     write_file h file_path file_data ;;
     print h (extracted_msg file_path) [file_path])%host.

Definition extract_all_files (fuel : nat) (h : host) (image : bytes)
    (output_dir : string) : M unit :=
  (let inode_bitmap_data := seek_read image BLOCK_SIZE BLOCK_SIZE in
   ensure_dir h output_dir ;;
   for_each (inode_indices inode_bitmap_data)
     (extract_one fuel h image output_dir))%host.

(** ** Command line (lines 149-193) *)

(** [click.Choice(["restore", "extract"])] admits no other value. *)
Inductive mode : Type := Restore | Extract.

Definition mismatch_msg (found : N) : string :=
  ("[red][!] Error: Magic number mismatch! Expected " ++ hex MAGIC_NUMBER
   ++ ", found " ++ hex found ++ "[/red]")%string.

Definition print_superblock (h : host) (sb : list value) : M unit :=
  (print h "[blue][-] Superblock Info:[/blue]" [] ;;
   print h ("    Magic Number: " ++ hex (int_at sb 0)) [hex (int_at sb 0)] ;;
   print h ("    Total Blocks: " ++ dec (int_at sb 1)) [dec (int_at sb 1)] ;;
   print h ("    Inode Bitmap Blocks: " ++ dec (int_at sb 2)) [dec (int_at sb 2)] ;;
   print h ("    Inode Area Blocks: " ++ dec (int_at sb 3)) [dec (int_at sb 3)] ;;
   print h ("    Data Bitmap Blocks: " ++ dec (int_at sb 4)) [dec (int_at sb 4)] ;;
   print h ("    Data Area Blocks: " ++ dec (int_at sb 5)) [dec (int_at sb 5)])%host.

(** [cli] once the image file has been opened; [image] is its content. *)
Definition cli (fuel : nat) (h : host) (image : bytes) (output : string)
    (m : mode) : M unit :=
  (let super_block_data := seek_read image 0 BLOCK_SIZE in
   super_block <- lift (unpack SUPER_BLOCK_FMT super_block_data) ;;
   let magic_number := int_at super_block 0 in
   if negb (magic_number =? MAGIC_NUMBER) then
     print h (mismatch_msg magic_number) [hex MAGIC_NUMBER; hex magic_number]
   else
     print_superblock h super_block ;;
     match m with
     | Restore =>
         print h "[blue][-] Restoring directory structure...[/blue]" [] ;;
         extract_directory fuel h image 0 output ;;
         print h "[green][+] Directory structure restored.[/green]" []
     | Extract =>
         print h "[blue][-] Extracting all files...[/blue]" [] ;;
         extract_all_files fuel h image output ;;
         print h "[green][+] All files extracted.[/green]" []
     end)%host.

(** * The specification's vocabulary (spec.md, sections 4.1 to 4.6)

    The program never builds a list of block indices: it appends payloads
    as it goes.  The definitions below say what the specification means by
    a resolved block list, so that the program can be compared with it. *)

(** The pointers of an array that are in use: those before the first 0. *)
Fixpoint until_zero (ptrs : list N) : list N :=
  match ptrs with
  | [] => []
  | p :: rest => if p =? 0 then [] else p :: until_zero rest
  end.

(** The bytes the image holds for block [b]. *)
Definition block_payload (image : bytes) (b : N) : bytes :=
  seek_read image (b * BLOCK_SIZE) BLOCK_SIZE.

(** Block [b] lies entirely inside the image. *)
Definition block_present (image : bytes) (b : N) : Prop :=
  b * BLOCK_SIZE + BLOCK_SIZE <= N.of_nat (List.length image).

(** 128 little-endian 4-byte block indices. *)
Definition decodeIndirectBlock (blk : bytes) : list N :=
  map (fun i => le_uint (firstn 4 (skipn (4 * i) blk))) (seq 0 128).

(** Payloads of a list of pointers, appended in order; the first failure
    wins. *)
Fixpoint collect {A} (f : N -> result (list A)) (ptrs : list N)
    : result (list A) :=
  match ptrs with
  | [] => Ok []
  | p :: rest => (d <- f p ;; ds <- collect f rest ;; Ok (d ++ ds))%result
  end.

(** Data blocks reached from [ptr] through [levels] levels of indirection. *)
Fixpoint resolve_level (levels : nat) (image : bytes) (ptr : N)
    : result (list N) :=
  match levels with
  | O => Ok [ptr]
  | S below =>
      let blk := block_payload image ptr in
      if Nat.eqb (List.length blk) 512
      then collect (resolve_level below image)
             (until_zero (decodeIndirectBlock blk))
      else Raise StructError
  end.

Definition resolve_pointer (levels : nat) (image : bytes) (ptr : N)
    : result (list N) :=
  if ptr =? 0 then Ok [] else resolve_level levels image ptr.

(** [resolveDataBlocks] of section 4.3. *)
Definition resolveDataBlocks (image : bytes) (inode : Inode)
    : result (list N) :=
  (single <- resolve_pointer 1 image (indirect1 inode) ;;
   double <- resolve_pointer 2 image (indirect2 inode) ;;
   triple <- resolve_pointer 3 image (indirect3 inode) ;;
   Ok (until_zero (direct inode) ++ single ++ double ++ triple))%result.

(** Payloads of a block list, concatenated. *)
Definition payloads (image : bytes) (blocks : list N) : bytes :=
  List.concat (map (block_payload image) blocks).

(** The 32-byte records of a directory's content. *)
Fixpoint chunks (fuel : nat) (n : nat) (data : bytes) : list bytes :=
  match fuel with
  | O => []
  | S fuel' =>
      match data with
      | [] => []
      | _ => firstn n data :: chunks fuel' n (skipn n data)
      end
  end.

Definition dir_records (content : bytes) : list bytes :=
  chunks (List.length content) 32 (skipn 64 content).

(** Output files of a run: the paths written, in order. *)
Fixpoint written_files (t : trace) : list string :=
  match t with
  | [] => []
  | EWrite path _ :: rest => path :: written_files rest
  | _ :: rest => written_files rest
  end.

(** Everything a run changed on the host file system. *)
Fixpoint host_changes (t : trace) : trace :=
  match t with
  | [] => []
  | EPrint _ :: rest => host_changes rest
  | e :: rest => e :: host_changes rest
  end.

(** A host on which every file system call succeeds and a path exists once
    the run has created it.  Its console is as strict as a console can be:
    it rejects every message into which a value with an opening bracket was
    interpolated. *)
Definition created (path : string) (e : event) : bool :=
  match e with
  | EMkdir p => String.eqb p path
  | EWrite p _ => String.eqb p path
  | EPrint _ => false
  end.

Definition fresh_host : host :=
  {| path_exists := fun t path => existsb (created path) t;
     mkdir_fails := fun _ _ => false;
     open_fails := fun _ _ => false;
     markup_rejects := fun _ => true |}.

(** The indices one bitmap byte contributes. *)
Definition byte_indices (index byte : N) : list N :=
  map (fun bit => index * 8 + bit)
      (filter (fun bit => negb (N.land byte (N.shiftl 1 bit) =? 0))
              (py_range 0 8 1)).

(** What flat extraction is expected to leave behind for a list of inode
    indices: for every inode that is not a directory, its file and the
    message that follows it. *)
Definition flat_path (output_dir : string) (inode_index : N) : string :=
  path_join output_dir ("inode" ++ dec inode_index).

Definition is_directory (image : bytes) (inode_index : N) : bool :=
  match load_inode image inode_index with
  | Ok inode => file_type inode =? 1
  | Raise _ => false
  end.

Definition flat_events (fuel : nat) (image : bytes) (output_dir : string)
    (indices : list N) : trace :=
  flat_map
    (fun i =>
       match load_inode image i with
       | Ok inode =>
           if file_type inode =? 1 then []
           else match extract_inode_data fuel image inode with
                | Ok content =>
                    [EWrite (flat_path output_dir i) content;
                     EPrint (extracted_msg (flat_path output_dir i))]
                | Raise _ => []
                end
       | Raise _ => []
       end)
    indices.

(** The inode record is readable and, unless it is a directory, so is its
    content. *)
Definition extractable (fuel : nat) (image : bytes) (inode_index : N) : Prop :=
  exists inode,
    load_inode image inode_index = Ok inode
    /\ (file_type inode <> 1 ->
        exists content, extract_inode_data fuel image inode = Ok content).

(** A host whose [mkdir] and [open] calls never fail. *)
Definition obliging (h : host) : Prop :=
  (forall t path, mkdir_fails h t path = false)
  /\ (forall t path, open_fails h t path = false).

(** * Building images

    Encoders for the on-disk records, used to write concrete images down. *)

Definition byte_of (n : N) : byte :=
  match Byte.of_N n with
  | Some b => b
  | None => x00
  end.

Definition u32 (n : N) : bytes :=
  map (fun i => byte_of ((n / 256 ^ i) mod 256)) [0; 1; 2; 3].

Definition zeros (n : nat) : bytes := repeat x00 n.

Definition pad_to (n : nat) (b : bytes) : bytes := b ++ zeros (n - List.length b).

Definition pointer_block (ptrs : list N) : bytes := pad_to 512 (flat_map u32 ptrs).

Definition data_block (fill : byte) : bytes := repeat fill 512.

Definition inode_record (inode : Inode) : bytes :=
  [byte_of (file_type inode)] ++ zeros 3 ++ u32 (size inode)
  ++ pad_to 108 (flat_map u32 (direct inode))
  ++ u32 (indirect1 inode) ++ u32 (indirect2 inode) ++ u32 (indirect3 inode).

Definition dir_entry_record (name : bytes) (child : N) : bytes :=
  pad_to 28 name ++ u32 child.

Definition super_block (magic : N) : bytes :=
  pad_to 512 (u32 magic ++ u32 16 ++ u32 1 ++ u32 4 ++ u32 1 ++ u32 9).

Definition blank_block : bytes := zeros 512.

(** A 13-block image: superblock, inode bitmap with bits 0, 3 and 5 set,
    four blocks of inode records, pointer blocks at 6 (single), 7 (double)
    and 8 (triple), the root directory's content at 9 and three data blocks.
    Inode 0 is the root directory with entries [hello -> 3] and [big -> 5];
    inode 3 is a 600-byte file on blocks 10 and 11; inode 5 is a 1536-byte
    file reached through the single-indirect block 6. *)
Definition root_inode : Inode := mkInode 1 128 (9 :: repeat 0 26) 0 0 0.
Definition hello_inode : Inode := mkInode 0 600 (10 :: 11 :: repeat 0 25) 0 0 0.
Definition big_inode : Inode := mkInode 0 1536 (repeat 0 27) 6 0 0.

Definition root_content : bytes :=
  dir_entry_record ["."]%byte 0 ++ dir_entry_record ["."; "."]%byte 0
  ++ dir_entry_record ["h"; "e"; "l"; "l"; "o"]%byte 3
  ++ dir_entry_record ["b"; "i"; "g"]%byte 5.

Definition demo_image : bytes :=
  super_block MAGIC_NUMBER
  ++ pad_to 512 [x29]
  ++ pad_to 2048 (inode_record root_inode ++ zeros 256
                  ++ inode_record hello_inode ++ zeros 128
                  ++ inode_record big_inode)
  ++ pointer_block [10; 11; 12] ++ pointer_block [6] ++ pointer_block [7]
  ++ pad_to 512 root_content
  ++ data_block "a" ++ data_block "b" ++ data_block "c".

(** The same image cut 40 bytes into block 11. *)
Definition truncated_image : bytes := firstn (N.to_nat 5672) demo_image.

(** The same image with a wrong magic number. *)
Definition foreign_image : bytes := zeros 512 ++ skipn 512 demo_image.

(** An inode whose third direct pointer is 0 although the fourth is not. *)
Definition sparse_inode : Inode := mkInode 0 1024 (5 :: 7 :: 0 :: 12 :: repeat 0 23) 0 0 0.

(** A name that fills the whole 28-byte field. *)
Definition long_name : bytes := repeat "a"%byte 28.

(** ** Vocabulary for the further properties *)

(** The 128 bytes the image holds for inode record [inode_index]. *)
Definition inode_bytes (image : bytes) (inode_index : N) : bytes :=
  seek_read image (BLOCK_SIZE * 2 + DISK_INODE_SIZE * inode_index) DISK_INODE_SIZE.

(** The little-endian 32-bit field at byte offset [off] of a record. *)
Definition field32 (rec : bytes) (off : nat) : N :=
  le_uint (firstn 4 (skipn off rec)).

(** Inode record [inode_index] lies entirely inside the image. *)
Definition inode_present (image : bytes) (inode_index : N) : Prop :=
  BLOCK_SIZE * 2 + DISK_INODE_SIZE * inode_index + DISK_INODE_SIZE
  <= N.of_nat (List.length image).

(** An image whose root directory lists itself: its third entry, [loop],
    points back to inode 0. *)
Definition loop_root : Inode := mkInode 1 96 (9 :: repeat 0 26) 0 0 0.

Definition loop_content : bytes :=
  dir_entry_record ["."]%byte 0 ++ dir_entry_record ["."; "."]%byte 0
  ++ dir_entry_record ["l"; "o"; "o"; "p"]%byte 0.

Definition loop_image : bytes :=
  super_block MAGIC_NUMBER
  ++ pad_to 512 [x01]
  ++ pad_to 2048 (inode_record loop_root)
  ++ zeros 1536
  ++ pad_to 512 loop_content.

(** A directory entry whose name is an absolute path. *)
Definition absolute_entry : bytes :=
  dir_entry_record ["/"; "t"; "m"; "p"; "/"; "x"]%byte 3.

(** The demo image cut in the middle of the inode table: the records of
    inodes 0 to 4 are there, the record of inode 5 is not. *)
Definition clipped_image : bytes := firstn (N.to_nat 1664) demo_image.

(** The layout of the demo image with other records for inodes 0 and 3. *)
Definition image_with (root third : Inode) : bytes :=
  super_block MAGIC_NUMBER
  ++ pad_to 512 [x29]
  ++ pad_to 2048 (inode_record root ++ zeros 256
                  ++ inode_record third ++ zeros 128
                  ++ inode_record big_inode)
  ++ pointer_block [10; 11; 12] ++ pointer_block [6] ++ pointer_block [7]
  ++ pad_to 512 root_content
  ++ data_block "a" ++ data_block "b" ++ data_block "c".

(** Inode 3 with a file type that is neither file nor directory. *)
Definition device_inode : Inode := mkInode 2 600 (10 :: 11 :: repeat 0 25) 0 0 0.
Definition odd_image : bytes := image_with root_inode device_inode.

(** A root directory that declares 100 bytes: two skipped entries, one
    entry, and 4 bytes more. *)
Definition ragged_root : Inode := mkInode 1 100 (9 :: repeat 0 26) 0 0 0.
Definition ragged_image : bytes := image_with ragged_root hello_inode.

(** What restoring a directory of regular files is expected to leave
    behind: for each record, the child's file under its name and the
    message that follows it. *)
Definition restored_events (fuel : nat) (image : bytes) (output_path : string)
    (records : list bytes) : trace :=
  flat_map
    (fun raw =>
       match decode_dir_entry raw with
       | Ok (name, child) =>
           match load_inode image child with
           | Ok inode =>
               match extract_inode_data fuel image inode with
               | Ok content =>
                   [EWrite (path_join output_path name) content;
                    EPrint (extracted_msg (path_join output_path name))]
               | Raise _ => []
               end
           | Raise _ => []
           end
       | Raise _ => []
       end)
    records.

(** The record names a regular file whose content can be read. *)
Definition plain_file_entry (fuel : nat) (image : bytes) (raw : bytes) : Prop :=
  exists name child inode content,
    decode_dir_entry raw = Ok (name, child)
    /\ load_inode image child = Ok inode
    /\ file_type inode = 0
    /\ extract_inode_data fuel image inode = Ok content.

(** The lines [cli] prints about a superblock it accepts. *)
Definition superblock_lines (sb : list value) : trace :=
  [EPrint "[blue][-] Superblock Info:[/blue]";
   EPrint ("    Magic Number: " ++ hex (int_at sb 0));
   EPrint ("    Total Blocks: " ++ dec (int_at sb 1));
   EPrint ("    Inode Bitmap Blocks: " ++ dec (int_at sb 2));
   EPrint ("    Inode Area Blocks: " ++ dec (int_at sb 3));
   EPrint ("    Data Bitmap Blocks: " ++ dec (int_at sb 4));
   EPrint ("    Data Area Blocks: " ++ dec (int_at sb 5))].

(** A host like [fresh_host] on which one path cannot be opened for
    writing. *)
Definition host_refusing (path : string) : host :=
  {| path_exists := fun t p => existsb (created p) t;
     mkdir_fails := fun _ _ => false;
     open_fails := fun _ p => String.eqb p path;
     markup_rejects := fun _ => true |}.

(** What flat extraction may do to the host: create the output directory,
    and write the file of an allocated inode that is not a directory. *)
Definition flat_event_ok (image : bytes) (output_dir : string) (e : event) : Prop :=
  match e with
  | EMkdir path => path = output_dir
  | EWrite path _ =>
      exists i,
        In i (inode_indices (seek_read image BLOCK_SIZE BLOCK_SIZE))
        /\ is_directory image i = false
        /\ path = flat_path output_dir i
  | EPrint _ => True
  end.

(** rich accepts the message printed after the file [path] is written. *)
Definition accepted (h : host) (path : string) : Prop :=
  print_fails h (extracted_msg path) [path] = false.

(** rich accepts the message printed for the file that the directory record
    [raw] names under [output_path]. *)
Definition entry_accepted (h : host) (output_path : string) (raw : bytes) : Prop :=
  forall name child,
    decode_dir_entry raw = Ok (name, child) ->
    accepted h (path_join output_path name).


(** * Basic facts *)

Section Reads.
Variable image : bytes.

Lemma seek_read_length (off n : N) :
  List.length (seek_read image off n)
  = Nat.min (N.to_nat n) (List.length image - N.to_nat off).
Proof.
  unfold seek_read. now rewrite length_firstn, length_skipn.
Qed.

Lemma block_payload_length (b : N) :
  List.length (block_payload image b)
  = Nat.min 512 (List.length image - N.to_nat (b * 512)).
Proof.
  unfold block_payload, BLOCK_SIZE. now rewrite seek_read_length.
Qed.

Lemma block_present_length (b : N) :
  block_present image b <-> List.length (block_payload image b) = 512%nat.
Proof.
  unfold block_present, BLOCK_SIZE. rewrite block_payload_length. lia.
Qed.

Lemma block_short_length (b : N) :
  ~ block_present image b ->
  (List.length (block_payload image b) < 512)%nat.
Proof.
  unfold block_present, BLOCK_SIZE. rewrite block_payload_length. lia.
Qed.
End Reads.

Lemma unpack_ok (fmt : list field) (data : bytes) :
  List.length data = calcsize fmt -> unpack fmt data = Ok (unpack_fields fmt data).
Proof.
  intros H. unfold unpack. now rewrite H, Nat.eqb_refl.
Qed.

Lemma unpack_short (fmt : list field) (data : bytes) :
  List.length data <> calcsize fmt -> unpack fmt data = Raise StructError.
Proof.
  intros H. unfold unpack.
  destruct (Nat.eqb_spec (List.length data) (calcsize fmt)); congruence.
Qed.

Lemma unpack_words (n : nat) (data : bytes) :
  ints (unpack_fields (repeat fI n) data)
  = map (fun i => le_uint (firstn 4 (skipn (4 * i) data))) (seq 0 n).
Proof.
  revert data. induction n as [|n IH]; intros data; [reflexivity|].
  cbn [repeat unpack_fields ints map field_size seq].
  f_equal.
  rewrite <- seq_shift, map_map. fold (ints (unpack_fields (repeat fI n) (skipn 4 data))).
  rewrite IH. apply map_ext. intros i.
  rewrite skipn_skipn. now replace (4 * i + 4)%nat with (4 * S i)%nat by lia.
Qed.

Lemma unpack_indirect_block (blk : bytes) :
  List.length blk = 512%nat ->
  (indices <- unpack INDIRECT_BLOCK_FMT blk ;; Ok (ints indices))%result
  = Ok (decodeIndirectBlock blk).
Proof.
  intros H. rewrite unpack_ok by exact H. cbn [rbind].
  unfold INDIRECT_BLOCK_FMT. now rewrite unpack_words.
Qed.

(** * The resolver against the block lists of the specification *)

Lemma until_zero_app_zero (pre post : list N) :
  Forall (fun p => p <> 0) pre -> until_zero (pre ++ 0 :: post) = pre.
Proof.
  induction 1 as [|p pre Hp _ IH]; [reflexivity|].
  cbn [app until_zero]. destruct (N.eqb_spec p 0); [contradiction|].
  now rewrite IH.
Qed.

Lemma until_zero_nonzero (ptrs : list N) :
  Forall (fun p => p <> 0) (until_zero ptrs).
Proof.
  induction ptrs as [|p rest IH]; cbn [until_zero]; [constructor|].
  destruct (N.eqb_spec p 0); [constructor|]. now constructor.
Qed.

Lemma until_zero_prefix (ptrs : list N) :
  exists rest, ptrs = until_zero ptrs ++ rest.
Proof.
  induction ptrs as [|p ptrs [rest IH]]; cbn [until_zero]; [now exists []|].
  destruct (p =? 0); [now exists (p :: ptrs)|].
  exists rest. cbn [app]. now rewrite <- IH.
Qed.

Lemma payloads_app (image : bytes) (a b : list N) :
  payloads image (a ++ b) = payloads image a ++ payloads image b.
Proof.
  unfold payloads. now rewrite map_app, concat_app.
Qed.

Lemma indirect_loop_collect (f : N -> result bytes) (indices : list N)
    (data : bytes) :
  indirect_loop f indices data
  = (d <- collect f (until_zero indices) ;; Ok (data ++ d))%result.
Proof.
  revert data. induction indices as [|index rest IH]; intros data;
    cbn [indirect_loop until_zero collect rbind].
  - now rewrite app_nil_r.
  - destruct (index =? 0); cbn [collect rbind]; [now rewrite app_nil_r|].
    destruct (f index) as [d|e]; cbn [rbind]; [|reflexivity].
    rewrite IH. destruct (collect f (until_zero rest)); cbn [rbind];
      [now rewrite app_assoc|reflexivity].
Qed.

Lemma collect_payloads (image : bytes) (f : N -> result bytes)
    (g : N -> result (list N)) (ptrs : list N) :
  (forall p, f p = (bl <- g p ;; Ok (payloads image bl))%result) ->
  collect f ptrs = (bl <- collect g ptrs ;; Ok (payloads image bl))%result.
Proof.
  intros Hfg. induction ptrs as [|p rest IH]; cbn [collect rbind]; [reflexivity|].
  rewrite Hfg, IH. destruct (g p); cbn [rbind]; [|reflexivity].
  destruct (collect g rest); cbn [rbind]; [|reflexivity].
  now rewrite payloads_app.
Qed.

Lemma direct_loop_payloads (image : bytes) (blocks : list N) (data : bytes) :
  direct_loop image blocks data = data ++ payloads image (until_zero blocks).
Proof.
  revert data. induction blocks as [|b rest IH]; intros data;
    cbn [direct_loop until_zero].
  - now rewrite app_nil_r.
  - destruct (b =? 0); [now rewrite app_nil_r|].
    rewrite IH, <- app_assoc. reflexivity.
Qed.

(** One frame of [read_indirect_block] on a block that is there. *)
Lemma read_indirect_block_step (fuel : nat) (image : bytes) (ptr : N) (level : Z) :
  block_present image ptr ->
  read_indirect_block (S fuel) image ptr level
  = collect
      (fun entry =>
         if (level =? 1)%Z then Ok (block_payload image entry)
         else read_indirect_block fuel image entry (level - 1)%Z)
      (until_zero (decodeIndirectBlock (block_payload image ptr))).
Proof.
  intros Hp. apply block_present_length in Hp.
  cbn [read_indirect_block]. fold (block_payload image ptr).
  rewrite unpack_ok by exact Hp. cbn [rbind].
  rewrite indirect_loop_collect. unfold INDIRECT_BLOCK_FMT.
  rewrite unpack_words. fold (decodeIndirectBlock (block_payload image ptr)).
  unfold block_payload.
  destruct (collect _ _); reflexivity.
Qed.

(** A truncated indirect block makes [struct.unpack] fail. *)
Lemma read_indirect_block_short (fuel : nat) (image : bytes) (ptr : N) (level : Z) :
  ~ block_present image ptr ->
  read_indirect_block (S fuel) image ptr level = Raise StructError.
Proof.
  intros Hp. apply block_short_length in Hp.
  cbn [read_indirect_block]. fold (block_payload image ptr).
  rewrite unpack_short; [reflexivity|].
  change (calcsize INDIRECT_BLOCK_FMT) with 512%nat. lia.
Qed.

Lemma block_present_dec (image : bytes) (b : N) :
  block_present image b \/ ~ block_present image b.
Proof.
  unfold block_present. lia.
Qed.

Lemma resolve_level_S (k : nat) (image : bytes) (ptr : N) :
  resolve_level (S k) image ptr
  = if Nat.eqb (List.length (block_payload image ptr)) 512
    then collect (resolve_level k image)
           (until_zero (decodeIndirectBlock (block_payload image ptr)))
    else Raise StructError.
Proof. reflexivity. Qed.

Lemma resolve_level_present (k : nat) (image : bytes) (ptr : N) :
  block_present image ptr ->
  resolve_level (S k) image ptr
  = collect (resolve_level k image)
      (until_zero (decodeIndirectBlock (block_payload image ptr))).
Proof.
  intros Hp. apply block_present_length in Hp.
  now rewrite resolve_level_S, Hp, Nat.eqb_refl.
Qed.

Lemma resolve_level_short (k : nat) (image : bytes) (ptr : N) :
  ~ block_present image ptr ->
  resolve_level (S k) image ptr = Raise StructError.
Proof.
  intros Hp. apply block_short_length in Hp. rewrite resolve_level_S.
  destruct (Nat.eqb_spec (List.length (block_payload image ptr)) 512);
    [lia|reflexivity].
Qed.

Lemma read_indirect_block_resolve (k fuel : nat) (image : bytes) (ptr : N) :
  (k < fuel)%nat ->
  read_indirect_block fuel image ptr (Z.of_nat (S k))
  = (bl <- resolve_level (S k) image ptr ;; Ok (payloads image bl))%result.
Proof.
  revert fuel ptr. induction k as [|k IH]; intros fuel ptr Hfuel;
    (destruct fuel as [|fuel]; [lia|]);
    (destruct (block_present_dec image ptr) as [Hp|Hp];
     [ rewrite read_indirect_block_step, resolve_level_present by exact Hp
     | now rewrite read_indirect_block_short, resolve_level_short by exact Hp ]).
  - apply collect_payloads. intros p. cbn.
    unfold payloads. cbn. now rewrite app_nil_r.
  - apply collect_payloads. intros p.
    replace (Z.of_nat (S (S k)) =? 1)%Z with false by (symmetry; apply Z.eqb_neq; lia).
    replace (Z.of_nat (S (S k)) - 1)%Z with (Z.of_nat (S k)) by lia.
    apply IH. lia.
Qed.

Lemma add_indirect_resolve (k fuel : nat) (image : bytes) (ptr : N) (data : bytes) :
  (k < fuel)%nat ->
  add_indirect fuel image ptr (Z.of_nat (S k)) data
  = (bl <- resolve_pointer (S k) image ptr ;; Ok (data ++ payloads image bl))%result.
Proof.
  intros Hfuel. unfold add_indirect, resolve_pointer.
  destruct (ptr =? 0); cbn [rbind].
  - unfold payloads. cbn. now rewrite app_nil_r.
  - rewrite read_indirect_block_resolve by exact Hfuel.
    destruct (resolve_level (S k) image ptr); reflexivity.
Qed.

(** The program computes the payloads of the specification's block list,
    cut to the declared size. *)
Lemma extract_inode_data_refines (fuel : nat) (image : bytes) (inode : Inode) :
  (3 <= fuel)%nat ->
  extract_inode_data fuel image inode
  = (bl <- resolveDataBlocks image inode ;;
     Ok (firstn (N.to_nat (size inode)) (payloads image bl)))%result.
Proof.
  intros Hfuel. unfold extract_inode_data, resolveDataBlocks.
  rewrite direct_loop_payloads. cbn [app].
  change 1%Z with (Z.of_nat 1). change 2%Z with (Z.of_nat 2).
  change 3%Z with (Z.of_nat 3).
  rewrite add_indirect_resolve by lia.
  destruct (resolve_pointer 1 image (indirect1 inode)) as [b1|]; cbn [rbind]; [|reflexivity].
  rewrite add_indirect_resolve by lia.
  destruct (resolve_pointer 2 image (indirect2 inode)) as [b2|]; cbn [rbind]; [|reflexivity].
  rewrite add_indirect_resolve by lia.
  destruct (resolve_pointer 3 image (indirect3 inode)) as [b3|]; cbn [rbind]; [|reflexivity].
  now rewrite !payloads_app, !app_assoc.
Qed.

(** * Claims about block-address resolution *)

(** C1. Resolving a level-L indirect pointer, L in {1, 2, 3}, reads the
    referenced 512-byte block as 128 little-endian 4-byte indices, takes its
    entries in array order up to the first 0, and for each of them appends
    the raw data block (512 bytes when the block is in the image) at level 1
    and resolves the entry at level L-1 otherwise; enough frames give a
    result whatever the fuel.  In particular an inode that uses only a
    single-indirect pointer, to a block beginning 10, 11, 12, 0, resolves to
    the block list [10; 11; 12]. *)
Theorem read_indirect_block_levels :
  (forall (fuel : nat) (image : bytes) (ptr : N) (level : Z),
      (1 <= level <= 3)%Z -> (Z.to_nat level <= fuel)%nat ->
      block_present image ptr ->
      read_indirect_block fuel image ptr level
      = collect
          (fun entry =>
             if (level =? 1)%Z then Ok (block_payload image entry)
             else read_indirect_block (Nat.pred fuel) image entry (level - 1)%Z)
          (until_zero (decodeIndirectBlock (block_payload image ptr)))
      /\ read_indirect_block fuel image ptr level
         = (bl <- resolve_level (Z.to_nat level) image ptr ;;
            Ok (payloads image bl))%result
      /\ (forall entry, block_present image entry ->
                        List.length (block_payload image entry) = 512%nat)
      /\ (indices <- unpack INDIRECT_BLOCK_FMT (block_payload image ptr) ;;
          Ok (ints indices))%result
         = Ok (decodeIndirectBlock (block_payload image ptr))
      /\ List.length (decodeIndirectBlock (block_payload image ptr)) = 128%nat)
  /\
  (forall (fuel : nat) (image : bytes) (inode : Inode) (rest : list N),
      (3 <= fuel)%nat ->
      until_zero (direct inode) = [] ->
      indirect1 inode <> 0 -> indirect2 inode = 0 -> indirect3 inode = 0 ->
      block_present image (indirect1 inode) ->
      decodeIndirectBlock (block_payload image (indirect1 inode))
      = 10 :: 11 :: 12 :: 0 :: rest ->
      resolveDataBlocks image inode = Ok [10; 11; 12]
      /\ extract_inode_data fuel image inode
         = Ok (firstn (N.to_nat (size inode))
                 (block_payload image 10 ++ block_payload image 11
                  ++ block_payload image 12))).
Proof.
  split.
  - intros fuel image ptr level Hlevel Hfuel Hp.
    split; [|split; [|split; [|split]]].
    + destruct fuel as [|fuel]; [lia|]. now apply read_indirect_block_step.
    + destruct (Z.to_nat level) as [|k] eqn:Hk; [lia|].
      replace level with (Z.of_nat (S k)) by lia.
      apply read_indirect_block_resolve. lia.
    + intros entry He. now apply block_present_length.
    + apply unpack_indirect_block. now apply block_present_length.
    + unfold decodeIndirectBlock. now rewrite length_map, length_seq.
  - intros fuel image inode rest Hfuel Hdirect H1 H2 H3 Hp Hentries.
    assert (Hbl : resolveDataBlocks image inode = Ok [10; 11; 12]).
    { unfold resolveDataBlocks, resolve_pointer. rewrite Hdirect, H2, H3.
      destruct (N.eqb_spec (indirect1 inode) 0); [contradiction|].
      rewrite resolve_level_present by exact Hp. rewrite Hentries.
      reflexivity. }
    split; [exact Hbl|].
    rewrite extract_inode_data_refines by exact Hfuel. rewrite Hbl.
    cbn [rbind]. unfold payloads. cbn [map List.concat].
    now rewrite app_nil_r.
Qed.

Lemma read_indirect_block_levels_witness :
  ((1 <= 2 <= 3)%Z /\ (Z.to_nat 2 <= 2)%nat /\ block_present demo_image 7
   /\ read_indirect_block 2 demo_image 7 2
      = (bl <- resolve_level 2 demo_image 7 ;; Ok (payloads demo_image bl))%result)
  /\ ((3 <= 3)%nat /\ indirect1 big_inode <> 0
      /\ resolveDataBlocks demo_image big_inode = Ok [10; 11; 12]).
Proof.
  split.
  - assert (Hl : (1 <= 2 <= 3)%Z) by lia.
    assert (Hf : (Z.to_nat 2 <= 2)%nat) by lia.
    assert (Hp : block_present demo_image 7)
      by (apply N.leb_le; vm_compute; reflexivity).
    refine (conj Hl (conj Hf (conj Hp _))).
    exact (proj1 (proj2 (proj1 read_indirect_block_levels 2%nat demo_image 7 2%Z Hl Hf Hp))).
  - assert (Hf : (3 <= 3)%nat) by lia.
    assert (H1 : indirect1 big_inode <> 0) by (vm_compute; discriminate).
    assert (Hp : block_present demo_image (indirect1 big_inode))
      by (apply N.leb_le; vm_compute; reflexivity).
    refine (conj Hf (conj H1 _)).
    exact (proj1 (proj2 read_indirect_block_levels 3%nat demo_image big_inode
                   (repeat 0 124) Hf eq_refl H1 eq_refl eq_refl Hp
                   ltac:(vm_compute; reflexivity))).
Defined.

(** C2. The direct portion of an inode's content is made of the blocks named
    by its direct pointers, in field order, up to the first pointer equal to
    0; that 0 and every later pointer are left out.  With direct pointers
    5, 7, 0, ... the direct portion is exactly blocks 5 and 7. *)
Theorem direct_pointers_stop_at_zero :
  forall (image : bytes) (inode : Inode),
    direct_loop image (direct inode) [] = payloads image (until_zero (direct inode))
    /\ (forall pre post,
           direct inode = pre ++ 0 :: post -> Forall (fun p => p <> 0) pre ->
           until_zero (direct inode) = pre
           /\ direct_loop image (direct inode) [] = payloads image pre)
    /\ (forall rest,
           direct inode = 5 :: 7 :: 0 :: rest ->
           until_zero (direct inode) = [5; 7]
           /\ direct_loop image (direct inode) []
              = block_payload image 5 ++ block_payload image 7
           /\ (forall fuel,
                  indirect1 inode = 0 -> indirect2 inode = 0 -> indirect3 inode = 0 ->
                  resolveDataBlocks image inode = Ok [5; 7]
                  /\ extract_inode_data fuel image inode
                     = Ok (firstn (N.to_nat (size inode))
                             (block_payload image 5 ++ block_payload image 7))))
    /\ Forall (fun p => p <> 0) (until_zero (direct inode))
    /\ (exists rest, direct inode = until_zero (direct inode) ++ rest).
Proof.
  intros image inode.
  assert (Hloop : direct_loop image (direct inode) []
                  = payloads image (until_zero (direct inode)))
    by now rewrite direct_loop_payloads.
  split; [exact Hloop|].
  split; [|split; [|split; [apply until_zero_nonzero|apply until_zero_prefix]]].
  - intros pre post Hd Hpre. rewrite Hloop, Hd.
    now rewrite until_zero_app_zero.
  - intros rest Hd. rewrite Hloop, Hd.
    assert (Hpay : payloads image [5; 7]
                   = block_payload image 5 ++ block_payload image 7)
      by (unfold payloads; cbn [map List.concat]; now rewrite app_nil_r).
    split; [reflexivity|]. split; [exact Hpay|].
    intros fuel H1 H2 H3. split.
    + unfold resolveDataBlocks, resolve_pointer. now rewrite Hd, H1, H2, H3.
    + unfold extract_inode_data, add_indirect. rewrite H1, H2, H3, Hd.
      cbn [N.eqb rbind]. rewrite direct_loop_payloads. cbn [app].
      change (until_zero (5 :: 7 :: 0 :: rest)) with [5; 7]. now rewrite Hpay.
Qed.

Lemma direct_pointers_stop_at_zero_witness :
  direct sparse_inode = [5; 7] ++ 0 :: 12 :: repeat 0 23
  /\ Forall (fun p => p <> 0) [5; 7]
  /\ until_zero (direct sparse_inode) = [5; 7]
  /\ resolveDataBlocks demo_image sparse_inode = Ok [5; 7].
Proof.
  assert (Hpre : Forall (fun p : N => p <> 0) [5; 7])
    by (repeat constructor; discriminate).
  pose proof (direct_pointers_stop_at_zero demo_image sparse_inode) as [_ [Hstop [Hex _]]].
  refine (conj eq_refl (conj Hpre (conj _ _))).
  - exact (proj1 (Hstop [5; 7] (12 :: repeat 0 23) eq_refl Hpre)).
  - exact (proj1 (proj2 (proj2 (Hex (12 :: repeat 0 23) eq_refl))
                   3%nat eq_refl eq_refl eq_refl)).
Defined.

(** C4. When the resolved blocks supply at least [size] bytes, the content
    of an inode is exactly [size] bytes long and is the first [size] bytes of
    the resolved payloads concatenated in resolution order: direct blocks,
    then the single-, double- and triple-indirect ones.  With declared size
    600 and two resolved 512-byte blocks the content is the 600-byte prefix
    of their concatenation. *)
Theorem extract_inode_data_prefix :
  (forall (fuel : nat) (image : bytes) (inode : Inode) (bl : list N),
      (3 <= fuel)%nat ->
      resolveDataBlocks image inode = Ok bl ->
      (N.to_nat (size inode) <= List.length (payloads image bl))%nat ->
      exists out single double triple,
        extract_inode_data fuel image inode = Ok out
        /\ List.length out = N.to_nat (size inode)
        /\ out = firstn (N.to_nat (size inode)) (payloads image bl)
        /\ resolve_pointer 1 image (indirect1 inode) = Ok single
        /\ resolve_pointer 2 image (indirect2 inode) = Ok double
        /\ resolve_pointer 3 image (indirect3 inode) = Ok triple
        /\ bl = until_zero (direct inode) ++ single ++ double ++ triple)
  /\
  (forall (fuel : nat) (image : bytes) (inode : Inode) (b1 b2 : N),
      (3 <= fuel)%nat ->
      size inode = 600 ->
      resolveDataBlocks image inode = Ok [b1; b2] ->
      block_present image b1 -> block_present image b2 ->
      exists out,
        extract_inode_data fuel image inode = Ok out
        /\ List.length out = 600%nat
        /\ out = firstn 600 (block_payload image b1 ++ block_payload image b2)).
Proof.
  split.
  - intros fuel image inode bl Hfuel Hbl Hlen.
    rewrite extract_inode_data_refines by exact Hfuel. rewrite Hbl. cbn [rbind].
    unfold resolveDataBlocks in Hbl.
    destruct (resolve_pointer 1 image (indirect1 inode)) as [single|]; [|discriminate].
    destruct (resolve_pointer 2 image (indirect2 inode)) as [double|]; [|discriminate].
    destruct (resolve_pointer 3 image (indirect3 inode)) as [triple|]; [|discriminate].
    cbn [rbind] in Hbl. injection Hbl as Hbl.
    exists (firstn (N.to_nat (size inode)) (payloads image bl)), single, double, triple.
    repeat split; try reflexivity; [|now symmetry].
    rewrite length_firstn. lia.
  - intros fuel image inode b1 b2 Hfuel Hsize Hbl H1 H2.
    rewrite extract_inode_data_refines by exact Hfuel. rewrite Hbl, Hsize.
    cbn [rbind]. unfold payloads. cbn [map List.concat]. rewrite app_nil_r.
    apply block_present_length in H1, H2.
    eexists. split; [reflexivity|]. split; [|reflexivity].
    rewrite length_firstn, length_app, H1, H2. reflexivity.
Qed.

Lemma extract_inode_data_prefix_witness :
  (3 <= 3)%nat /\ size hello_inode = 600
  /\ resolveDataBlocks demo_image hello_inode = Ok [10; 11]
  /\ block_present demo_image 10 /\ block_present demo_image 11
  /\ (N.to_nat (size hello_inode) <= List.length (payloads demo_image [10%N; 11%N]))%nat
  /\ (exists out,
         extract_inode_data 3 demo_image hello_inode = Ok out
         /\ List.length out = 600%nat
         /\ out = firstn 600 (block_payload demo_image 10 ++ block_payload demo_image 11))
  /\ (exists out single double triple,
         extract_inode_data 3 demo_image hello_inode = Ok out
         /\ List.length out = N.to_nat (size hello_inode)
         /\ out = firstn (N.to_nat (size hello_inode)) (payloads demo_image [10; 11])
         /\ resolve_pointer 1 demo_image (indirect1 hello_inode) = Ok single
         /\ resolve_pointer 2 demo_image (indirect2 hello_inode) = Ok double
         /\ resolve_pointer 3 demo_image (indirect3 hello_inode) = Ok triple
         /\ [10; 11] = until_zero (direct hello_inode) ++ single ++ double ++ triple).
Proof.
  assert (Hf : (3 <= 3)%nat) by lia.
  assert (Hbl : resolveDataBlocks demo_image hello_inode = Ok [10; 11]) by reflexivity.
  assert (H10 : block_present demo_image 10) by (apply N.leb_le; vm_compute; reflexivity).
  assert (H11 : block_present demo_image 11) by (apply N.leb_le; vm_compute; reflexivity).
  assert (Hlen : (N.to_nat (size hello_inode)
                  <= List.length (payloads demo_image [10%N; 11%N]))%nat)
    by (apply Nat.leb_le; vm_compute; reflexivity).
  refine (conj Hf (conj eq_refl (conj Hbl (conj H10 (conj H11 (conj Hlen (conj _ _))))))).
  - exact (proj2 extract_inode_data_prefix 3%nat demo_image hello_inode 10 11
             Hf eq_refl Hbl H10 H11).
  - exact (proj1 extract_inode_data_prefix 3%nat demo_image hello_inode [10; 11]
             Hf Hbl Hlen).
Defined.

(** * Claims about short data *)

(** What the file branches do once the content is known: the file is
    written, then the message is printed, unless rich rejects it. *)
Lemma host_changes_app (t1 t2 : trace) :
  host_changes (t1 ++ t2) = host_changes t1 ++ host_changes t2.
Proof.
  induction t1 as [|[p|p d|s] t1 IH]; cbn [app host_changes];
    [reflexivity| | |]; now rewrite IH.
Qed.

Lemma extract_one_file_run (fuel : nat) (h : host) (image : bytes)
    (output_dir : string) (inode_index : N) (inode : Inode) (content : bytes)
    (t : trace) :
  load_inode image inode_index = Ok inode ->
  file_type inode <> 1 ->
  extract_inode_data fuel image inode = Ok content ->
  open_fails h t (path_join output_dir ("inode" ++ dec inode_index)) = false ->
  extract_one fuel h image output_dir inode_index t
  = (if print_fails h
          (extracted_msg (path_join output_dir ("inode" ++ dec inode_index)))
          [path_join output_dir ("inode" ++ dec inode_index)]
     then (Raise MarkupError,
           t ++ [EWrite (path_join output_dir ("inode" ++ dec inode_index)) content])
     else (Ok tt,
           t ++ [EWrite (path_join output_dir ("inode" ++ dec inode_index)) content;
                 EPrint (extracted_msg
                           (path_join output_dir ("inode" ++ dec inode_index)))])).
Proof.
  intros Hload Htype Hdata Hopen.
  unfold extract_one, bind, lift, write_file, print. rewrite Hload.
  destruct (N.eqb_spec (file_type inode) 1); [contradiction|].
  rewrite Hdata, Hopen.
  destruct (print_fails h _ _); [reflexivity|now rewrite <- app_assoc].
Qed.

Lemma extract_one_file (fuel : nat) (h : host) (image : bytes)
    (output_dir : string) (inode_index : N) (inode : Inode) (content : bytes)
    (t : trace) :
  load_inode image inode_index = Ok inode ->
  file_type inode <> 1 ->
  extract_inode_data fuel image inode = Ok content ->
  open_fails h t (path_join output_dir ("inode" ++ dec inode_index)) = false ->
  print_fails h (extracted_msg (path_join output_dir ("inode" ++ dec inode_index)))
    [path_join output_dir ("inode" ++ dec inode_index)] = false ->
  extract_one fuel h image output_dir inode_index t
  = (Ok tt,
     t ++ [EWrite (path_join output_dir ("inode" ++ dec inode_index)) content;
           EPrint (extracted_msg (path_join output_dir ("inode" ++ dec inode_index)))]).
Proof.
  intros Hload Htype Hdata Hopen Hprint.
  rewrite (extract_one_file_run fuel h image output_dir inode_index inode content t
             Hload Htype Hdata Hopen).
  now rewrite Hprint.
Qed.

Lemma extract_one_directory (fuel : nat) (h : host) (image : bytes)
    (output_dir : string) (inode_index : N) (inode : Inode) (t : trace) :
  load_inode image inode_index = Ok inode ->
  file_type inode = 1 ->
  extract_one fuel h image output_dir inode_index t = (Ok tt, t).
Proof.
  intros Hload Htype. unfold extract_one, bind, lift. rewrite Hload, Htype.
  reflexivity.
Qed.

Lemma extract_directory_file_run (fuel : nat) (h : host) (image : bytes)
    (inode_index : N) (output_path : string) (inode : Inode) (content : bytes)
    (t : trace) :
  load_inode image inode_index = Ok inode ->
  file_type inode = 0 ->
  extract_inode_data fuel image inode = Ok content ->
  open_fails h t output_path = false ->
  extract_directory (S fuel) h image inode_index output_path t
  = (if print_fails h (extracted_msg output_path) [output_path]
     then (Raise MarkupError, t ++ [EWrite output_path content])
     else (Ok tt,
           t ++ [EWrite output_path content; EPrint (extracted_msg output_path)])).
Proof.
  intros Hload Htype Hdata Hopen.
  cbn [extract_directory]. unfold bind, lift, write_file, print.
  rewrite Hload, Htype. cbn [N.eqb Pos.eqb]. rewrite Hdata, Hopen.
  destruct (print_fails h _ _); [reflexivity|now rewrite <- app_assoc].
Qed.

Lemma extract_directory_file (fuel : nat) (h : host) (image : bytes)
    (inode_index : N) (output_path : string) (inode : Inode) (content : bytes)
    (t : trace) :
  load_inode image inode_index = Ok inode ->
  file_type inode = 0 ->
  extract_inode_data fuel image inode = Ok content ->
  open_fails h t output_path = false ->
  print_fails h (extracted_msg output_path) [output_path] = false ->
  extract_directory (S fuel) h image inode_index output_path t
  = (Ok tt, t ++ [EWrite output_path content; EPrint (extracted_msg output_path)]).
Proof.
  intros Hload Htype Hdata Hopen Hprint.
  rewrite (extract_directory_file_run fuel h image inode_index output_path inode
             content t Hload Htype Hdata Hopen).
  now rewrite Hprint.
Qed.

Lemma host_changes_written (t : trace) (path : string) (content : bytes)
    (text : string) (failed : bool) (r1 r2 : result unit) :
  host_changes
    (snd (if failed then (r1, t ++ [EWrite path content])
          else (r2, t ++ [EWrite path content; EPrint text])))
  = host_changes t ++ [EWrite path content].
Proof.
  destruct failed; cbn [snd]; now rewrite host_changes_app.
Qed.




(** C9, as the program has it.  Reading block [index] returns the bytes the
    image holds from offset [index * 512], at most 512 of them, with no
    padding and no failure.  A short data block is appended as it is; a
    short indirect block makes [struct.unpack] raise, so it is never taken
    for a complete array of block indices. *)
Theorem block_read_may_be_short :
  forall (image : bytes) (index : N),
    block_payload image index
    = firstn 512 (skipn (N.to_nat (index * 512)) image)
    /\ List.length (block_payload image index)
       = Nat.min 512 (List.length image - N.to_nat (index * 512))
    /\ (block_present image index ->
        List.length (block_payload image index) = 512%nat)
    /\ (~ block_present image index ->
        (List.length (block_payload image index) < 512)%nat
        /\ (index <> 0 ->
            forall data, direct_loop image [index] data
                         = data ++ block_payload image index)
        /\ (forall fuel level,
               read_indirect_block (S fuel) image index level = Raise StructError)).
Proof.
  intros image index. split; [reflexivity|].
  split; [apply block_payload_length|].
  split; [apply block_present_length|].
  intros Hshort. split; [now apply block_short_length|]. split.
  - intros Hnz data. cbn [direct_loop].
    destruct (N.eqb_spec index 0); [contradiction|reflexivity].
  - intros fuel level. now apply read_indirect_block_short.
Qed.

Lemma block_read_may_be_short_witness :
  ~ block_present truncated_image 11
  /\ block_present truncated_image 10
  /\ (List.length (block_payload truncated_image 11) < 512)%nat
  /\ List.length (block_payload truncated_image 10) = 512%nat.
Proof.
  assert (H11 : ~ block_present truncated_image 11).
  { intros H. apply N.leb_le in H. vm_compute in H. discriminate H. }
  assert (H10 : block_present truncated_image 10)
    by (apply N.leb_le; vm_compute; reflexivity).
  pose proof (block_read_may_be_short truncated_image 11) as [_ [_ [_ Hs]]].
  pose proof (block_read_may_be_short truncated_image 10) as [_ [_ [Hp _]]].
  exact (conj H11 (conj H10 (conj (proj1 (Hs H11)) (Hp H10)))).
Defined.

(** C9 as stated fails: block 11 of the truncated image holds 40 bytes; the
    read returns them without any error and they become the content of an
    inode whose direct pointer names that block. *)
Lemma short_read_is_silent :
  List.length (seek_read truncated_image (11 * BLOCK_SIZE) BLOCK_SIZE) = 40%nat
  /\ extract_inode_data 3 truncated_image (mkInode 0 512 (11 :: repeat 0 26) 0 0 0)
     = Ok (repeat "b"%byte 40).
Proof.
  split; vm_compute; reflexivity.
Qed.

(** * Claims about directory entries *)

Lemma before_null_all (name : bytes) :
  Forall (fun b => b <> x00) name -> before_null name = name.
Proof.
  induction 1 as [|b rest Hb _ IH]; cbn [before_null]; [reflexivity|].
  destruct (Byte.eqb b x00) eqn:E; [now apply byte_dec_bl in E|].
  now rewrite IH.
Qed.

Lemma before_null_split (name : bytes) :
  exists rest,
    name = before_null name ++ rest
    /\ Forall (fun b => b <> x00) (before_null name)
    /\ (rest = [] \/ exists tail, rest = x00 :: tail).
Proof.
  induction name as [|b name [rest [Heq [Hnn Hrest]]]]; cbn [before_null].
  - exists []. repeat split; [constructor|now left].
  - destruct (Byte.eqb b x00) eqn:E.
    + apply byte_dec_bl in E. subst b. exists (x00 :: name).
      repeat split; [constructor|right; now exists name].
    + exists rest. cbn [app]. rewrite <- Heq.
      repeat split; [|exact Hrest]. constructor; [now apply eqb_false|exact Hnn].
Qed.

Lemma unpack_dir_entry (raw : bytes) :
  List.length raw = 32%nat ->
  unpack DIR_ENTRY_FMT raw
  = Ok [VBytes (firstn 28 raw); VInt (le_uint (firstn 4 (skipn 28 raw)))].
Proof.
  intros H. now rewrite unpack_ok by exact H.
Qed.

Lemma decode_dir_entry_eq (raw : bytes) :
  List.length raw = 32%nat ->
  decode_dir_entry raw
  = (name <- py_decode (before_null (firstn 28 raw)) ;;
     Ok (name, le_uint (firstn 4 (skipn 28 raw))))%result.
Proof.
  intros H. unfold decode_dir_entry. now rewrite unpack_dir_entry by exact H.
Qed.

(** C5, as the program has it.  Decoding a 32-byte directory entry takes the
    bytes of the 28-byte name field strictly before the first null byte,
    decodes them as UTF-8 (an error is raised when they are not UTF-8) and
    pairs the text with the 4-byte little-endian child inode index; an empty
    name is not rejected and decodes to the empty string. *)
Theorem decode_dir_entry_accepts_names :
  forall raw : bytes,
    List.length raw = 32%nat ->
    let name_field := firstn 28 raw in
    let child := le_uint (firstn 4 (skipn 28 raw)) in
    (exists rest,
        name_field = before_null name_field ++ rest
        /\ Forall (fun b => b <> x00) (before_null name_field)
        /\ (rest = [] \/ exists tail, rest = x00 :: tail))
    /\ (utf8_valid (before_null name_field) = true ->
        decode_dir_entry raw
        = Ok (string_of_list_byte (before_null name_field), child))
    /\ (utf8_valid (before_null name_field) = false ->
        decode_dir_entry raw = Raise UnicodeDecodeError)
    /\ (before_null name_field = [] ->
        decode_dir_entry raw = Ok (EmptyString, child)).
Proof.
  intros raw Hlen name_field child.
  split; [apply before_null_split|].
  rewrite decode_dir_entry_eq by exact Hlen. fold name_field. fold child.
  unfold py_decode. repeat split.
  - intros Hv. now rewrite Hv.
  - intros Hv. now rewrite Hv.
  - intros He. now rewrite He.
Qed.

Lemma decode_dir_entry_accepts_names_witness :
  List.length (dir_entry_record ["b"; "i"; "g"]%byte 5) = 32%nat
  /\ utf8_valid (before_null (firstn 28 (dir_entry_record ["b"; "i"; "g"]%byte 5))) = true
  /\ decode_dir_entry (dir_entry_record ["b"; "i"; "g"]%byte 5) = Ok ("big"%string, 5).
Proof.
  refine (conj eq_refl (conj eq_refl _)).
  exact (proj1 (proj2 (decode_dir_entry_accepts_names
                         (dir_entry_record ["b"; "i"; "g"]%byte 5) eq_refl))
           eq_refl).
Defined.

(** C5 as stated fails: an entry whose name field starts with a null byte
    decodes to the empty name without any error, and the child path built
    from it is the parent path with a trailing separator. *)
Lemma empty_name_is_accepted :
  List.length (dir_entry_record [] 7) = 32%nat
  /\ decode_dir_entry (dir_entry_record [] 7) = Ok (EmptyString, 7)
  /\ path_join "out" EmptyString = "out/"%string.
Proof.
  repeat split.
Qed.

(** C10, as the program has it.  When the 28-byte name field holds no null
    byte, the whole field is the name: nothing is cut, and the entry decodes
    to the 28 bytes as text whenever they are UTF-8; when they are not,
    decoding raises. *)
Theorem full_name_field_is_the_name :
  forall raw : bytes,
    List.length raw = 32%nat ->
    Forall (fun b => b <> x00) (firstn 28 raw) ->
    before_null (firstn 28 raw) = firstn 28 raw
    /\ decode_dir_entry raw
       = (name <- py_decode (firstn 28 raw) ;;
          Ok (name, le_uint (firstn 4 (skipn 28 raw))))%result
    /\ (utf8_valid (firstn 28 raw) = true ->
        decode_dir_entry raw
        = Ok (string_of_list_byte (firstn 28 raw),
              le_uint (firstn 4 (skipn 28 raw)))
        /\ list_byte_of_string (string_of_list_byte (firstn 28 raw))
           = firstn 28 raw
        /\ String.length (string_of_list_byte (firstn 28 raw)) = 28%nat)
    /\ (utf8_valid (firstn 28 raw) = false ->
        decode_dir_entry raw = Raise UnicodeDecodeError).
Proof.
  intros raw Hlen Hnn.
  assert (Hall : before_null (firstn 28 raw) = firstn 28 raw)
    by now apply before_null_all.
  split; [exact Hall|].
  rewrite decode_dir_entry_eq by exact Hlen. rewrite Hall.
  split; [reflexivity|]. unfold py_decode. split.
  - intros Hv. rewrite Hv. split; [reflexivity|].
    split; [apply list_byte_of_string_of_list_byte|].
    assert (Hl : forall l : bytes,
               String.length (string_of_list_byte l) = List.length l).
    { induction l as [|b l IH]; cbn; [reflexivity|now rewrite <- IH]. }
    rewrite Hl, length_firstn. lia.
  - intros Hv. now rewrite Hv.
Qed.

Lemma full_name_field_is_the_name_witness :
  List.length (dir_entry_record long_name 5) = 32%nat
  /\ Forall (fun b => b <> x00) (firstn 28 (dir_entry_record long_name 5))
  /\ utf8_valid (firstn 28 (dir_entry_record long_name 5)) = true
  /\ decode_dir_entry (dir_entry_record long_name 5)
     = Ok (string_of_list_byte (firstn 28 (dir_entry_record long_name 5)),
           le_uint (firstn 4 (skipn 28 (dir_entry_record long_name 5)))).
Proof.
  assert (Hnn : Forall (fun b => b <> x00) (firstn 28 (dir_entry_record long_name 5)))
    by (repeat constructor; discriminate).
  refine (conj eq_refl (conj Hnn (conj eq_refl _))).
  exact (proj1 (proj1 (proj2 (proj2 (full_name_field_is_the_name
                                       (dir_entry_record long_name 5) eq_refl Hnn)))
                  eq_refl)).
Defined.

(** C10 as stated fails: a name field of 28 bytes 0xFF holds no null byte,
    yet decoding the entry raises. *)
Lemma full_name_field_may_not_decode :
  List.length (dir_entry_record (repeat xff 28) 5) = 32%nat
  /\ Forall (fun b => b <> x00) (firstn 28 (dir_entry_record (repeat xff 28) 5))
  /\ decode_dir_entry (dir_entry_record (repeat xff 28) 5) = Raise UnicodeDecodeError.
Proof.
  split; [reflexivity|]. split; [|reflexivity].
  repeat constructor; discriminate.
Qed.

(** * Claims about the directory walk *)


Lemma bind_ret_unit (m : M unit) (t : trace) :
  bind m (fun _ => ret tt) t = m t.
Proof.
  unfold bind, ret. now destruct (m t) as [[[]|e] t'].
Qed.


Lemma for_each_map {A B} (f : A -> B) (xs : list A) (body : B -> M unit) (t : trace) :
  for_each (map f xs) body t = for_each xs (fun x => body (f x)) t.
Proof.
  revert t. induction xs as [|x rest IH]; intros t; cbn [map for_each]; [reflexivity|].
  unfold bind. destruct (body (f x) t) as [[[]|e] t']; [apply IH|reflexivity].
Qed.

Lemma chunks_slices (fuel : nat) (data : bytes) :
  (List.length data <= fuel)%nat ->
  chunks fuel 32 data
  = map (fun k => firstn 32 (skipn (32 * k) data))
        (seq 0 ((List.length data + 31) / 32)).
Proof.
  revert data. induction fuel as [|fuel IH]; intros data Hlen.
  - destruct data; [reflexivity|cbn in Hlen; lia].
  - destruct data as [|b data]; [reflexivity|].
    assert (Hpos : (0 < List.length (b :: data))%nat) by (cbn; lia).
    cbn [chunks]. rewrite IH by (rewrite length_skipn; lia).
    replace ((List.length (b :: data) + 31) / 32)%nat
      with (S ((List.length (skipn 32 (b :: data)) + 31) / 32))
      by (rewrite length_skipn;
          zify; Z.to_euclidean_division_equations; lia).
    cbn [seq map]. rewrite <- seq_shift, map_map. f_equal.
    apply map_ext. intros k. rewrite skipn_skipn.
    now replace (32 * k + 32)%nat with (32 * S k)%nat by lia.
Qed.

(** On a directory whose content is as long as declared, the slices the loop
    takes are the 32-byte records after the first two. *)
Lemma range_slices_are_records (content : bytes) (sz : N) :
  List.length content = N.to_nat sz ->
  map (fun offset => slice content offset DIR_ENTRY_SIZE)
      (py_range (DIR_ENTRY_SIZE * 2) sz DIR_ENTRY_SIZE)
  = dir_records content.
Proof.
  intros Hlen. unfold dir_records, py_range, slice, DIR_ENTRY_SIZE.
  rewrite chunks_slices by (rewrite length_skipn; lia).
  rewrite map_map, length_skipn, Hlen.
  replace (N.to_nat ((sz - 32 * 2 + (32 - 1)) / 32))
    with ((N.to_nat sz - 64 + 31) / 32)%nat
    by (zify; Z.to_euclidean_division_equations; lia).
  apply map_ext. intros k. rewrite skipn_skipn.
  now replace (N.to_nat (32 * 2 + 32 * N.of_nat k)) with (32 * k + 64)%nat by lia.
Qed.

Lemma extract_directory_dir (fuel : nat) (h : host) (image : bytes)
    (inode_index : N) (output_path : string) (inode : Inode) (content : bytes)
    (t : trace) :
  load_inode image inode_index = Ok inode ->
  file_type inode = 1 ->
  extract_inode_data fuel image inode = Ok content ->
  extract_directory (S fuel) h image inode_index output_path t
  = (ensure_dir h output_path ;;
     for_each (py_range (DIR_ENTRY_SIZE * 2) (size inode) DIR_ENTRY_SIZE)
       (fun offset =>
          entry <- lift (decode_dir_entry (slice content offset DIR_ENTRY_SIZE)) ;;
          extract_directory fuel h image (snd entry)
            (path_join output_path (fst entry))))%host t.
Proof.
  intros Hload Htype Hdata. cbn [extract_directory].
  unfold bind at 1. unfold lift at 1. rewrite Hload, Htype. cbn [N.eqb Pos.eqb].
  unfold bind at 1. unfold bind at 3.
  destruct (ensure_dir h output_path t) as [[[]|e] t']; [|reflexivity].
  unfold bind at 1. unfold lift at 1. now rewrite Hdata.
Qed.



(** * Claims about the inode bitmap and flat extraction *)

Lemma bit_test (byte bit : N) :
  negb (N.land byte (N.shiftl 1 bit) =? 0) = N.testbit byte bit.
Proof.
  rewrite N.shiftl_1_l. destruct (N.testbit byte bit) eqn:Hbit.
  - apply negb_true_iff, N.eqb_neq. intros H0.
    assert (Hb : N.testbit (N.land byte (2 ^ bit)) bit = true)
      by now rewrite N.land_spec, Hbit, N.pow2_bits_true.
    rewrite H0 in Hb. now rewrite N.bits_0 in Hb.
  - apply negb_false_iff, N.eqb_eq, N.bits_inj. intros m.
    rewrite N.land_spec, N.bits_0, N.pow2_bits_eqb.
    destruct (N.eqb_spec bit m) as [->|]; [now rewrite Hbit|apply andb_false_r].
Qed.

Section Sorting.
Variable A : Type.
Variable lt : A -> A -> Prop.

Lemma sorted_filter (keep : A -> bool) (l : list A) :
  StronglySorted lt l -> StronglySorted lt (filter keep l).
Proof.
  induction 1 as [|x l Hs IH Hx]; cbn [filter]; [constructor|].
  destruct (keep x); [|exact IH].
  constructor; [exact IH|].
  apply Forall_forall. intros y Hy. apply filter_In in Hy.
  rewrite Forall_forall in Hx. now apply Hx.
Qed.

Lemma sorted_app (l1 l2 : list A) :
  StronglySorted lt l1 -> StronglySorted lt l2 ->
  (forall x y, In x l1 -> In y l2 -> lt x y) ->
  StronglySorted lt (l1 ++ l2).
Proof.
  induction 1 as [|x l1 Hs IH Hx]; intros H2 Hcross; cbn [app]; [exact H2|].
  constructor.
  - apply IH; [exact H2|]. intros a b Ha Hb. apply Hcross; [now right|exact Hb].
  - apply Forall_app. split; [exact Hx|].
    apply Forall_forall. intros y Hy. apply Hcross; [now left|exact Hy].
Qed.
End Sorting.

Lemma sorted_map_increasing (f : N -> N) (l : list N) :
  (forall a b, a < b -> f a < f b) ->
  StronglySorted N.lt l -> StronglySorted N.lt (map f l).
Proof.
  intros Hf. induction 1 as [|x l Hs IH Hx]; cbn [map]; constructor; [exact IH|].
  apply Forall_map. revert Hx. apply Forall_impl. intros a. apply Hf.
Qed.

Lemma bit_positions : py_range 0 8 1 = [0; 1; 2; 3; 4; 5; 6; 7].
Proof. reflexivity. Qed.

Lemma byte_indices_In (index byte x : N) :
  In x (byte_indices index byte)
  <-> exists bit, bit < 8 /\ N.testbit byte bit = true /\ x = index * 8 + bit.
Proof.
  unfold byte_indices. rewrite in_map_iff. split.
  - intros [bit [Hx Hin]]. apply filter_In in Hin. destruct Hin as [Hin Hset].
    rewrite bit_test in Hset. exists bit. repeat split; [|exact Hset|now symmetry].
    rewrite bit_positions in Hin. cbn [In] in Hin. lia.
  - intros [bit [Hlt [Hset Hx]]]. exists bit. split; [now symmetry|].
    apply filter_In. split; [|now rewrite bit_test].
    rewrite bit_positions. cbn [In].
    assert (bit = 0 \/ bit = 1 \/ bit = 2 \/ bit = 3 \/ bit = 4 \/ bit = 5
            \/ bit = 6 \/ bit = 7) by lia.
    intuition auto.
Qed.

Lemma byte_indices_sorted (index byte : N) :
  StronglySorted N.lt (byte_indices index byte).
Proof.
  unfold byte_indices. apply sorted_map_increasing; [intros; lia|].
  apply sorted_filter. rewrite bit_positions.
  repeat (constructor; [|repeat (constructor; [reflexivity|]); constructor]).
  constructor.
Qed.

Lemma bitmap_indices_In (index : N) (inode_bitmap : list N) (x : N) :
  In x (bitmap_indices index inode_bitmap)
  <-> exists i byte bit,
        nth_error inode_bitmap i = Some byte /\ bit < 8
        /\ N.testbit byte bit = true /\ x = (index + N.of_nat i) * 8 + bit.
Proof.
  revert index. induction inode_bitmap as [|byte0 rest IH]; intros index;
    cbn [bitmap_indices].
  - split; [intros []|]. intros [i [byte [bit [Hnth _]]]]. now destruct i.
  - fold (byte_indices index byte0). rewrite in_app_iff, byte_indices_In, IH.
    split.
    + intros [[bit [Hlt [Hset Hx]]] | [i [byte [bit [Hnth [Hlt [Hset Hx]]]]]]].
      * exists 0%nat, byte0, bit. repeat split; try assumption. lia.
      * exists (S i), byte, bit. repeat split; try assumption. lia.
    + intros [i [byte [bit [Hnth [Hlt [Hset Hx]]]]]]. destruct i as [|i].
      * left. cbn in Hnth. injection Hnth as ->. exists bit.
        repeat split; try assumption. lia.
      * right. exists i, byte, bit. repeat split; try assumption. lia.
Qed.

Lemma bitmap_indices_sorted (index : N) (inode_bitmap : list N) :
  StronglySorted N.lt (bitmap_indices index inode_bitmap).
Proof.
  revert index. induction inode_bitmap as [|byte0 rest IH]; intros index;
    cbn [bitmap_indices]; [constructor|].
  fold (byte_indices index byte0).
  apply sorted_app; [apply byte_indices_sorted|apply IH|].
  intros x y Hx Hy. apply byte_indices_In in Hx. apply bitmap_indices_In in Hy.
  destruct Hx as [bit [Hlt [_ ->]]].
  destruct Hy as [i [byte [bit' [_ [_ [_ ->]]]]]]. lia.
Qed.

Lemma ensure_dir_obliging (h : host) (path : string) (t : trace) :
  obliging h ->
  ensure_dir h path t
  = (Ok tt, t ++ (if path_exists h t path then [] else [EMkdir path])).
Proof.
  intros [Hmk _]. unfold ensure_dir, bind, os_path_exists, os_mkdir, ret.
  destruct (path_exists h t path); cbn [negb]; [now rewrite app_nil_r|].
  now rewrite Hmk.
Qed.

Lemma has_bracket_append (a b : string) :
  has_bracket (a ++ b) = has_bracket a || has_bracket b.
Proof.
  induction a as [|c a IH]; cbn [String.append has_bracket]; [reflexivity|].
  now rewrite IH, orb_assoc.
Qed.

Lemma dec_plain (n : N) : has_bracket (dec n) = false.
Proof.
  unfold dec, NilZero.string_of_uint.
  assert (H : forall d, has_bracket (NilEmpty.string_of_uint d) = false)
    by (induction d; cbn; auto).
  destruct (N.to_uint n); try apply H. reflexivity.
Qed.

Lemma hex_digits_plain (n : nat) :
  forall (p : positive) (rest : string),
    (Pos.to_nat p <= n)%nat ->
    has_bracket rest = false ->
    has_bracket (HexString.Raw.of_pos p rest) = false.
Proof.
  induction n as [|n IH]; intros p rest Hp Hrest; [lia|].
  do 4 try destruct p as [p|p|]; cbn [HexString.Raw.of_pos has_bracket];
    try (cbn; exact Hrest); (apply IH; [lia|cbn; exact Hrest]).
Qed.

Lemma hex_plain (n : N) : has_bracket (hex n) = false.
Proof.
  unfold hex, HexString.of_N. destruct n as [|p]; [reflexivity|].
  unfold HexString.of_pos. cbn [has_bracket Ascii.eqb].
  cbn. now apply (hex_digits_plain (Pos.to_nat p)).
Qed.

Lemma print_plain (h : host) (text : string) (values : list string) (t : trace) :
  Forall (fun v => has_bracket v = false) values ->
  print h text values t = (Ok tt, t ++ [EPrint text]).
Proof.
  intros Hv. unfold print, print_fails.
  replace (existsb has_bracket values) with false; [reflexivity|].
  symmetry. induction Hv as [|v rest Hv _ IH]; cbn [existsb]; [reflexivity|].
  now rewrite Hv, IH.
Qed.

Lemma path_join_plain (a b : string) :
  has_bracket a = false -> has_bracket b = false ->
  has_bracket (path_join a b) = false.
Proof.
  intros Ha Hb. unfold path_join. destruct (String.prefix "/" b); [exact Hb|].
  destruct (String.eqb a EmptyString || ends_with_slash a);
    rewrite !has_bracket_append, Ha, ?Hb; cbn; now rewrite ?Hb.
Qed.

Lemma plain_accepted (h : host) (path : string) :
  has_bracket path = false -> accepted h path.
Proof.
  intros H. unfold accepted, print_fails. cbn [existsb]. now rewrite H.
Qed.

Lemma flat_path_accepted (h : host) (output_dir : string) (i : N) :
  has_bracket output_dir = false -> accepted h (flat_path output_dir i).
Proof.
  intros H. apply plain_accepted. unfold flat_path.
  apply path_join_plain; [exact H|].
  rewrite has_bracket_append, dec_plain. reflexivity.
Qed.

Lemma for_each_extract_one (fuel : nat) (h : host) (image : bytes)
    (output_dir : string) (indices : list N) (t : trace) :
  obliging h ->
  Forall (extractable fuel image) indices ->
  Forall (fun i => accepted h (flat_path output_dir i)) indices ->
  for_each indices (extract_one fuel h image output_dir) t
  = (Ok tt, t ++ flat_events fuel image output_dir indices).
Proof.
  intros Hh Hall Hacc. revert t.
  induction Hall as [|i rest [inode [Hload Hdata]] _ IH]; intros t;
    cbn [for_each flat_events flat_map]; [unfold ret; now rewrite app_nil_r|].
  apply Forall_cons_iff in Hacc. destruct Hacc as [Hi Hrest].
  fold (flat_events fuel image output_dir rest). rewrite Hload. unfold bind.
  destruct (N.eqb_spec (file_type inode) 1) as [Hdir|Hfile].
  - rewrite (extract_one_directory fuel h image output_dir i inode t Hload Hdir).
    now apply IH.
  - destruct (Hdata Hfile) as [content Hcontent]. rewrite Hcontent.
    rewrite (extract_one_file fuel h image output_dir i inode content t
               Hload Hfile Hcontent (proj2 Hh _ _) Hi).
    rewrite IH by exact Hrest. unfold flat_path. now rewrite <- app_assoc.
Qed.

Lemma written_files_app (t1 t2 : trace) :
  written_files (t1 ++ t2) = written_files t1 ++ written_files t2.
Proof.
  induction t1 as [|[p|p d|s] t1 IH]; cbn [app written_files];
    [reflexivity| | |]; now rewrite IH.
Qed.

Lemma written_files_flat (fuel : nat) (image : bytes) (output_dir : string)
    (indices : list N) :
  Forall (extractable fuel image) indices ->
  written_files (flat_events fuel image output_dir indices)
  = map (flat_path output_dir)
        (filter (fun i => negb (is_directory image i)) indices).
Proof.
  induction 1 as [|i rest [inode [Hload Hdata]] _ IH];
    cbn [flat_events flat_map filter map]; [reflexivity|].
  fold (flat_events fuel image output_dir rest).
  rewrite written_files_app, IH. unfold is_directory. rewrite Hload.
  destruct (N.eqb_spec (file_type inode) 1) as [Hdir|Hfile]; [reflexivity|].
  destruct (Hdata Hfile) as [content ->]. reflexivity.
Qed.




(** * Claims about the command line *)

Lemma super_block_magic (image : bytes) :
  (512 <= List.length image)%nat ->
  exists super_block,
    unpack SUPER_BLOCK_FMT (seek_read image 0 BLOCK_SIZE) = Ok super_block
    /\ int_at super_block 0 = le_uint (firstn 4 image).
Proof.
  intros Hlen.
  assert (Hread : seek_read image 0 BLOCK_SIZE = firstn 512 image) by reflexivity.
  rewrite Hread.
  rewrite unpack_ok
    by (rewrite length_firstn; change (calcsize SUPER_BLOCK_FMT) with 512%nat; lia).
  eexists. split; [reflexivity|].
  transitivity (le_uint (firstn 4 (firstn 512 image))); [reflexivity|].
  now rewrite firstn_firstn.
Qed.

(** C8. When the magic field of the superblock, the first 4 bytes read as a
    little-endian integer, is not 0x3B800001, the run stops at once in both
    modes: it prints the mismatch error and returns, no directory is created
    and no file is written.  An image too short to hold a superblock stops
    the run with an error before anything is written as well. *)
Theorem bad_magic_aborts :
  forall (fuel : nat) (h : host) (image : bytes) (output : string) (m : mode)
         (t : trace),
    ((512 <= List.length image)%nat ->
     le_uint (firstn 4 image) <> MAGIC_NUMBER ->
     cli fuel h image output m t
     = (Ok tt, t ++ [EPrint (mismatch_msg (le_uint (firstn 4 image)))])
     /\ host_changes (snd (cli fuel h image output m t)) = host_changes t
     /\ written_files (snd (cli fuel h image output m t)) = written_files t)
    /\ ((List.length image < 512)%nat ->
        cli fuel h image output m t = (Raise StructError, t)).
Proof.
  intros fuel h image output m t. split.
  - intros Hlen Hmagic.
    destruct (super_block_magic image Hlen) as [sb [Hsb Hfield]].
    assert (Hcli : cli fuel h image output m t
                   = (Ok tt, t ++ [EPrint (mismatch_msg (le_uint (firstn 4 image)))])).
    { unfold cli. unfold bind at 1. unfold lift at 1. rewrite Hsb, Hfield.
      destruct (N.eqb_spec (le_uint (firstn 4 image)) MAGIC_NUMBER);
        [contradiction|]. cbn [negb]. apply print_plain.
      constructor; [apply hex_plain|constructor; [apply hex_plain|constructor]]. }
    rewrite Hcli. cbn [snd].
    rewrite host_changes_app, written_files_app. cbn. now rewrite !app_nil_r.
  - intros Hshort. unfold cli. unfold bind at 1. unfold lift at 1.
    rewrite unpack_short; [reflexivity|].
    rewrite seek_read_length. change (calcsize SUPER_BLOCK_FMT) with 512%nat. lia.
Qed.

Lemma bad_magic_aborts_witness :
  (512 <= List.length foreign_image)%nat
  /\ le_uint (firstn 4 foreign_image) <> MAGIC_NUMBER
  /\ cli 8 fresh_host foreign_image "out" Restore []
     = (Ok tt, [EPrint (mismatch_msg 0)])
  /\ written_files (snd (cli 8 fresh_host foreign_image "out" Extract [])) = [].
Proof.
  assert (Hlen : (512 <= List.length foreign_image)%nat)
    by (apply Nat.leb_le; vm_compute; reflexivity).
  assert (Hmagic : le_uint (firstn 4 foreign_image) <> MAGIC_NUMBER)
    by (vm_compute; discriminate).
  refine (conj Hlen (conj Hmagic (conj _ _))).
  - exact (proj1 (proj1 (bad_magic_aborts 8%nat fresh_host foreign_image "out"%string
                           Restore []) Hlen Hmagic)).
  - exact (proj2 (proj2 (proj1 (bad_magic_aborts 8%nat fresh_host foreign_image
                                  "out"%string Extract []) Hlen Hmagic))).
Defined.

(** * Further properties: inode records *)

Lemma le_uint_bound (bs : bytes) :
  le_uint bs < 256 ^ N.of_nat (List.length bs).
Proof.
  induction bs as [|b rest IH]; cbn [le_uint List.length]; [reflexivity|].
  rewrite Nat2N.inj_succ, N.pow_succ_r'.
  pose proof (Byte.to_N_bounded b). lia.
Qed.

Lemma field32_bound (rec : bytes) (off : nat) : field32 rec off < 2 ^ 32.
Proof.
  unfold field32.
  pose proof (le_uint_bound (firstn 4 (skipn off rec))) as H.
  assert (Hlen : (List.length (firstn 4 (skipn off rec)) <= 4)%nat)
    by (rewrite length_firstn; lia).
  assert (Hpow : 256 ^ N.of_nat (List.length (firstn 4 (skipn off rec))) <= 256 ^ 4)
    by (apply N.pow_le_mono_r; lia).
  change (2 ^ 32) with (256 ^ 4). lia.
Qed.

Lemma int_at_ints (t : list value) (i : nat) : int_at t i = nth i (ints t) 0.
Proof.
  unfold int_at, ints. now rewrite <- (map_nth as_int).
Qed.

Lemma inode_present_length (image : bytes) (inode_index : N) :
  inode_present image inode_index
  <-> List.length (inode_bytes image inode_index) = 128%nat.
Proof.
  unfold inode_present, inode_bytes, BLOCK_SIZE, DISK_INODE_SIZE.
  rewrite seek_read_length. lia.
Qed.

Lemma unpack_words_values (n : nat) (d : bytes) :
  unpack_fields (repeat fI n) d
  = map (fun k => VInt (le_uint (firstn 4 (skipn (4 * k) d)))) (seq 0 n).
Proof.
  revert d. induction n as [|n IH]; intros d; [reflexivity|].
  cbn [repeat unpack_fields field_size seq map]. f_equal.
  rewrite IH, <- seq_shift, map_map. apply map_ext. intros k.
  rewrite skipn_skipn. now replace (4 * k + 4)%nat with (4 * S k)%nat by lia.
Qed.

Lemma unpack_inode_fields (rec : bytes) :
  unpack_fields DISK_INODE_FMT rec
  = VInt (le_uint (firstn 1 rec))
    :: map (fun k => VInt (field32 rec (4 + 4 * k))) (seq 0 31).
Proof.
  change DISK_INODE_FMT with (fB :: fx 3 :: repeat fI 31).
  cbn [unpack_fields field_size]. f_equal. rewrite skipn_skipn.
  rewrite unpack_words_values. apply map_ext. intros k.
  unfold field32. rewrite skipn_skipn.
  now replace (4 * k + (3 + 1))%nat with (4 + 4 * k)%nat by lia.
Qed.

Lemma load_inode_present (image : bytes) (inode_index : N) :
  inode_present image inode_index ->
  load_inode image inode_index
  = Ok {| file_type := le_uint (firstn 1 (inode_bytes image inode_index));
          size := field32 (inode_bytes image inode_index) 4;
          direct := map (fun k => field32 (inode_bytes image inode_index) (8 + 4 * k))
                        (seq 0 27);
          indirect1 := field32 (inode_bytes image inode_index) 116;
          indirect2 := field32 (inode_bytes image inode_index) 120;
          indirect3 := field32 (inode_bytes image inode_index) 124 |}.
Proof.
  intros Hp. apply inode_present_length in Hp.
  unfold load_inode. fold (inode_bytes image inode_index).
  rewrite unpack_ok by exact Hp. cbn [rbind].
  rewrite !int_at_ints. unfold ints. rewrite <- firstn_map, <- skipn_map.
  rewrite unpack_inode_fields. cbn [map]. rewrite map_map. cbn [as_int].
  generalize (field32 (inode_bytes image inode_index)). intros f. reflexivity.
Qed.

Lemma load_inode_absent (image : bytes) (inode_index : N) :
  ~ inode_present image inode_index ->
  load_inode image inode_index = Raise StructError.
Proof.
  intros Hp. unfold load_inode. fold (inode_bytes image inode_index).
  rewrite unpack_short; [reflexivity|].
  rewrite inode_present_length in Hp. exact Hp.
Qed.

Lemma inode_present_dec (image : bytes) (inode_index : N) :
  inode_present image inode_index \/ ~ inode_present image inode_index.
Proof.
  unfold inode_present. lia.
Qed.

(** X1. An inode record is decoded from fixed offsets of its 128 bytes: the
    type from byte 0, the size from bytes 4-7, the 27 direct pointers from
    bytes 8-115 and the three indirect pointers from bytes 116-127, all
    little-endian; a record that does not lie entirely inside the image
    raises [struct.error]. *)
Theorem load_inode_layout :
  forall (image : bytes) (inode_index : N),
    (inode_present image inode_index ->
     let rec := inode_bytes image inode_index in
     load_inode image inode_index
     = Ok {| file_type := le_uint (firstn 1 rec);
             size := field32 rec 4;
             direct := map (fun k => field32 rec (8 + 4 * k)) (seq 0 27);
             indirect1 := field32 rec 116;
             indirect2 := field32 rec 120;
             indirect3 := field32 rec 124 |})
    /\ (~ inode_present image inode_index ->
        load_inode image inode_index = Raise StructError).
Proof.
  intros image inode_index. split.
  - intros Hp rec. now apply load_inode_present.
  - apply load_inode_absent.
Qed.

Lemma load_inode_layout_witness :
  inode_present demo_image 3
  /\ load_inode demo_image 3
     = Ok {| file_type := le_uint (firstn 1 (inode_bytes demo_image 3));
             size := field32 (inode_bytes demo_image 3) 4;
             direct := map (fun k => field32 (inode_bytes demo_image 3) (8 + 4 * k))
                           (seq 0 27);
             indirect1 := field32 (inode_bytes demo_image 3) 116;
             indirect2 := field32 (inode_bytes demo_image 3) 120;
             indirect3 := field32 (inode_bytes demo_image 3) 124 |}
  /\ ~ inode_present demo_image 100
  /\ load_inode demo_image 100 = Raise StructError.
Proof.
  assert (H3 : inode_present demo_image 3)
    by (apply N.leb_le; vm_compute; reflexivity).
  assert (H100 : ~ inode_present demo_image 100).
  { intros H. apply N.leb_le in H. vm_compute in H. discriminate H. }
  refine (conj H3 (conj _ (conj H100 _))).
  - exact (proj1 (load_inode_layout demo_image 3) H3).
  - exact (proj2 (load_inode_layout demo_image 100) H100).
Defined.

(** X2. Every inode the program loads has exactly 27 direct pointers, a
    type below 256 and a size and pointers below 2^32, and its record lies
    inside the image. *)
Theorem load_inode_ranges :
  forall (image : bytes) (inode_index : N) (inode : Inode),
    load_inode image inode_index = Ok inode ->
    inode_present image inode_index
    /\ file_type inode < 256
    /\ size inode < 2 ^ 32
    /\ List.length (direct inode) = 27%nat
    /\ Forall (fun p => p < 2 ^ 32) (direct inode)
    /\ indirect1 inode < 2 ^ 32
    /\ indirect2 inode < 2 ^ 32
    /\ indirect3 inode < 2 ^ 32.
Proof.
  intros image inode_index inode Hload.
  destruct (inode_present_dec image inode_index) as [Hp|Hp];
    [|rewrite (load_inode_absent image inode_index Hp) in Hload; discriminate].
  split; [exact Hp|].
  rewrite (load_inode_present image inode_index Hp) in Hload.
  injection Hload as <-. cbn [file_type size direct indirect1 indirect2 indirect3].
  assert (Htype : le_uint (firstn 1 (inode_bytes image inode_index)) < 256).
  { pose proof (le_uint_bound (firstn 1 (inode_bytes image inode_index))) as H.
    assert (Hlen : (List.length (firstn 1 (inode_bytes image inode_index)) <= 1)%nat)
      by (rewrite length_firstn; lia).
    assert (Hpow : 256 ^ N.of_nat (List.length (firstn 1 (inode_bytes image inode_index)))
                   <= 256 ^ 1) by (apply N.pow_le_mono_r; lia).
    change (256 ^ 1) with 256 in Hpow. lia. }
  assert (Hdirect : Forall (fun p => p < 2 ^ 32)
                      (map (fun k => field32 (inode_bytes image inode_index) (8 + 4 * k))
                           (seq 0 27)))
    by (apply Forall_map, Forall_forall; intros k _; apply field32_bound).
  refine (conj Htype (conj (field32_bound _ _) (conj _ (conj Hdirect
            (conj (field32_bound _ _) (conj (field32_bound _ _) (field32_bound _ _))))))).
  reflexivity.
Qed.

Lemma load_inode_ranges_witness :
  load_inode demo_image 5 = Ok big_inode
  /\ List.length (direct big_inode) = 27%nat
  /\ size big_inode < 2 ^ 32.
Proof.
  assert (H : load_inode demo_image 5 = Ok big_inode) by (vm_compute; reflexivity).
  pose proof (load_inode_ranges demo_image 5 big_inode H) as [_ [_ [Hs [Hl _]]]].
  exact (conj H (conj Hl Hs)).
Defined.

(** * Further properties: block resolution *)

Lemma collect_error {A} (f : N -> result (list A)) (ptrs : list N) (e : exn) :
  (forall p e', f p = Raise e' -> e' = StructError) ->
  collect f ptrs = Raise e -> e = StructError.
Proof.
  intros Hf. induction ptrs as [|p rest IH]; cbn [collect rbind]; [discriminate|].
  destruct (f p) as [d|e'] eqn:Hp; cbn [rbind].
  - destruct (collect f rest) as [ds|e'']; cbn [rbind]; [discriminate|].
    intros H. injection H as <-. now apply IH.
  - intros H. injection H as <-. now apply (Hf p).
Qed.

Lemma collect_Forall {A} (P : A -> Prop) (f : N -> result (list A))
    (ptrs : list N) (r : list A) :
  (forall p d, In p ptrs -> f p = Ok d -> Forall P d) ->
  collect f ptrs = Ok r -> Forall P r.
Proof.
  revert r. induction ptrs as [|p rest IH]; intros r Hf; cbn [collect rbind].
  - intros H. injection H as <-. constructor.
  - destruct (f p) as [d|] eqn:Hp; cbn [rbind]; [|discriminate].
    destruct (collect f rest) as [ds|] eqn:Hrest; cbn [rbind]; [|discriminate].
    intros H. injection H as <-. apply Forall_app. split.
    + apply (Hf p); [now left|exact Hp].
    + apply IH; [|reflexivity]. intros q d' Hq. apply Hf. now right.
Qed.

Lemma collect_length {A} (m : nat) (f : N -> result (list A)) (ptrs : list N)
    (r : list A) :
  (forall p d, f p = Ok d -> (List.length d <= m)%nat) ->
  collect f ptrs = Ok r -> (List.length r <= m * List.length ptrs)%nat.
Proof.
  intros Hf. revert r. induction ptrs as [|p rest IH]; intros r;
    cbn [collect rbind List.length].
  - intros H. injection H as <-. cbn. lia.
  - destruct (f p) as [d|] eqn:Hp; cbn [rbind]; [|discriminate].
    destruct (collect f rest) as [ds|] eqn:Hrest; cbn [rbind]; [|discriminate].
    intros H. injection H as <-. rewrite length_app.
    specialize (Hf p d Hp). specialize (IH ds eq_refl). lia.
Qed.

Lemma until_zero_length (ptrs : list N) :
  (List.length (until_zero ptrs) <= List.length ptrs)%nat.
Proof.
  induction ptrs as [|p rest IH]; cbn [until_zero List.length]; [lia|].
  destruct (p =? 0); cbn [List.length]; lia.
Qed.

Lemma decodeIndirectBlock_length (blk : bytes) :
  List.length (decodeIndirectBlock blk) = 128%nat.
Proof.
  unfold decodeIndirectBlock. now rewrite length_map, length_seq.
Qed.

Lemma resolve_level_error (k : nat) (image : bytes) (ptr : N) (e : exn) :
  resolve_level k image ptr = Raise e -> e = StructError.
Proof.
  revert ptr e. induction k as [|k IH]; intros ptr e; [discriminate|].
  rewrite resolve_level_S.
  destruct (Nat.eqb (List.length (block_payload image ptr)) 512).
  - apply collect_error. intros p e'. apply IH.
  - intros H. now injection H as <-.
Qed.

Lemma resolve_level_nonzero (k : nat) (image : bytes) (ptr : N) (bl : list N) :
  ptr <> 0 -> resolve_level k image ptr = Ok bl -> Forall (fun b => b <> 0) bl.
Proof.
  revert ptr bl. induction k as [|k IH]; intros ptr bl Hptr.
  - intros H. injection H as <-. now repeat constructor.
  - rewrite resolve_level_S.
    destruct (Nat.eqb (List.length (block_payload image ptr)) 512); [|discriminate].
    apply collect_Forall. intros p d Hin. apply IH.
    pose proof (until_zero_nonzero (decodeIndirectBlock (block_payload image ptr))) as Hnz.
    rewrite Forall_forall in Hnz. now apply Hnz.
Qed.

Lemma resolve_level_count (k : nat) (image : bytes) (ptr : N) (bl : list N) :
  resolve_level k image ptr = Ok bl -> (List.length bl <= 128 ^ k)%nat.
Proof.
  revert ptr bl. induction k as [|k IH]; intros ptr bl.
  - intros H. injection H as <-. cbn. lia.
  - rewrite resolve_level_S.
    destruct (Nat.eqb (List.length (block_payload image ptr)) 512); [|discriminate].
    intros H. apply (collect_length (128 ^ k)) in H; [|intros p d; apply IH].
    pose proof (until_zero_length (decodeIndirectBlock (block_payload image ptr))) as Hu.
    rewrite decodeIndirectBlock_length in Hu.
    rewrite Nat.pow_succ_r'. nia.
Qed.

Lemma payloads_length (image : bytes) (bl : list N) :
  (List.length (payloads image bl) <= 512 * List.length bl)%nat.
Proof.
  unfold payloads. induction bl as [|b rest IH]; cbn [map List.concat List.length]; [lia|].
  rewrite length_app, block_payload_length. lia.
Qed.

Lemma resolve_pointer_error (k : nat) (image : bytes) (ptr : N) (e : exn) :
  resolve_pointer k image ptr = Raise e -> e = StructError.
Proof.
  unfold resolve_pointer. destruct (ptr =? 0); [discriminate|].
  apply resolve_level_error.
Qed.

Lemma resolve_pointer_nonzero (k : nat) (image : bytes) (ptr : N) (bl : list N) :
  resolve_pointer k image ptr = Ok bl -> Forall (fun b => b <> 0) bl.
Proof.
  unfold resolve_pointer. destruct (N.eqb_spec ptr 0).
  - intros H. injection H as <-. constructor.
  - now apply resolve_level_nonzero.
Qed.

Lemma resolve_pointer_count (k : nat) (image : bytes) (ptr : N) (bl : list N) :
  resolve_pointer k image ptr = Ok bl -> (List.length bl <= 128 ^ k)%nat.
Proof.
  unfold resolve_pointer. destruct (ptr =? 0).
  - intros H. injection H as <-. cbn [List.length]. apply Nat.le_0_l.
  - apply resolve_level_count.
Qed.

(** X3. Resolving an indirect pointer at a level of 1 or more needs no more
    frames than the level, on any image, also when pointer blocks refer to
    themselves or to each other: the result does not depend on the frames
    left beyond that, and the only failure is [struct.error] on a block that
    is not entirely in the image. *)
Theorem read_indirect_block_depth :
  forall (fuel : nat) (image : bytes) (ptr : N) (level : Z),
    (1 <= level)%Z -> (Z.to_nat level <= fuel)%nat ->
    read_indirect_block fuel image ptr level
    = read_indirect_block (Z.to_nat level) image ptr level
    /\ (forall e, read_indirect_block fuel image ptr level = Raise e ->
                  e = StructError).
Proof.
  intros fuel image ptr level Hlevel Hfuel.
  destruct (Z.to_nat level) as [|k] eqn:Hk; [lia|].
  replace level with (Z.of_nat (S k)) by lia.
  rewrite !read_indirect_block_resolve by lia. split; [reflexivity|].
  intros e. destruct (resolve_level (S k) image ptr) as [bl|e'] eqn:Hr;
    cbn [rbind]; [discriminate|].
  intros H. injection H as <-. now apply resolve_level_error in Hr.
Qed.

Lemma read_indirect_block_depth_witness :
  (1 <= 3)%Z /\ (Z.to_nat 3 <= 9)%nat
  /\ read_indirect_block 9 demo_image 8 3 = read_indirect_block (Z.to_nat 3) demo_image 8 3.
Proof.
  assert (Hl : (1 <= 3)%Z) by lia.
  assert (Hf : (Z.to_nat 3 <= 9)%nat) by (vm_compute; lia).
  exact (conj Hl (conj Hf (proj1 (read_indirect_block_depth 9%nat demo_image 8 3%Z Hl Hf)))).
Defined.

Lemma resolve_pointer_countN (k : nat) (image : bytes) (ptr : N) (bl : list N) :
  resolve_pointer k image ptr = Ok bl ->
  N.of_nat (List.length bl) <= 128 ^ N.of_nat k.
Proof.
  intros H. apply resolve_pointer_count in H.
  change 128 with (N.of_nat 128). rewrite <- Nat2N.inj_pow. lia.
Qed.

Lemma resolveDataBlocks_parts (image : bytes) (inode : Inode) (bl : list N) :
  resolveDataBlocks image inode = Ok bl ->
  exists single double triple,
    resolve_pointer 1 image (indirect1 inode) = Ok single
    /\ resolve_pointer 2 image (indirect2 inode) = Ok double
    /\ resolve_pointer 3 image (indirect3 inode) = Ok triple
    /\ bl = until_zero (direct inode) ++ single ++ double ++ triple.
Proof.
  unfold resolveDataBlocks.
  destruct (resolve_pointer 1 image (indirect1 inode)) as [single|]; [|discriminate].
  destruct (resolve_pointer 2 image (indirect2 inode)) as [double|]; [|discriminate].
  destruct (resolve_pointer 3 image (indirect3 inode)) as [triple|]; [|discriminate].
  cbn [rbind]. intros H. injection H as <-. now exists single, double, triple.
Qed.

Lemma resolveDataBlocks_error (image : bytes) (inode : Inode) (e : exn) :
  resolveDataBlocks image inode = Raise e -> e = StructError.
Proof.
  unfold resolveDataBlocks.
  destruct (resolve_pointer 1 image (indirect1 inode)) as [single|e1] eqn:H1;
    cbn [rbind]; [|intros H; injection H as <-; now apply resolve_pointer_error in H1].
  destruct (resolve_pointer 2 image (indirect2 inode)) as [double|e2] eqn:H2;
    cbn [rbind]; [|intros H; injection H as <-; now apply resolve_pointer_error in H2].
  destruct (resolve_pointer 3 image (indirect3 inode)) as [triple|e3] eqn:H3;
    cbn [rbind]; [discriminate|].
  intros H. injection H as <-. now apply resolve_pointer_error in H3.
Qed.

(** X4. The content extracted for an inode is never longer than the size
    the inode declares, and never longer than 512 bytes for each direct
    pointer, 128 blocks for the single-indirect pointer, 128^2 for the double
    and 128^3 for the triple one. *)
Theorem content_size_bound :
  forall (fuel : nat) (image : bytes) (inode : Inode) (out : bytes),
    (3 <= fuel)%nat ->
    extract_inode_data fuel image inode = Ok out ->
    N.of_nat (List.length out) <= size inode
    /\ N.of_nat (List.length out)
       <= 512 * (N.of_nat (List.length (direct inode)) + 128 + 128 ^ 2 + 128 ^ 3).
Proof.
  intros fuel image inode out Hfuel Hout.
  rewrite extract_inode_data_refines in Hout by exact Hfuel.
  destruct (resolveDataBlocks image inode) as [bl|] eqn:Hbl; [|discriminate].
  cbn [rbind] in Hout. injection Hout as <-.
  destruct (resolveDataBlocks_parts image inode bl Hbl)
    as [single [double [triple [H1 [H2 [H3 ->]]]]]].
  apply resolve_pointer_countN in H1, H2, H3.
  change (128 ^ N.of_nat 1) with 128 in H1.
  change (N.of_nat 2) with 2 in H2. change (N.of_nat 3) with 3 in H3.
  pose proof (until_zero_length (direct inode)) as Hd.
  pose proof (payloads_length image
                (until_zero (direct inode) ++ single ++ double ++ triple)) as Hp.
  rewrite !length_app in Hp. rewrite length_firstn.
  set (a := 128 ^ 2) in *. set (b := 128 ^ 3) in *. lia.
Qed.

Lemma content_size_bound_witness :
  (3 <= 3)%nat
  /\ extract_inode_data 3 demo_image big_inode
     = Ok (data_block "a" ++ data_block "b" ++ data_block "c")
  /\ N.of_nat (List.length (data_block "a" ++ data_block "b" ++ data_block "c"))
     <= size big_inode.
Proof.
  assert (Hf : (3 <= 3)%nat) by lia.
  assert (H : extract_inode_data 3 demo_image big_inode
              = Ok (data_block "a" ++ data_block "b" ++ data_block "c"))
    by (vm_compute; reflexivity).
  exact (conj Hf (conj H (proj1 (content_size_bound 3%nat demo_image big_inode _ Hf H)))).
Defined.

(** X5. With at least three frames left, content extraction gives the same
    result whatever the number of frames and can fail only with
    [struct.error]; an inode without indirect pointers never fails, on any
    image and with any number of frames: blocks that are missing from the
    image simply contribute no bytes. *)
Theorem extract_inode_data_failures :
  forall (image : bytes) (inode : Inode),
    (forall fuel, (3 <= fuel)%nat ->
       extract_inode_data fuel image inode = extract_inode_data 3 image inode
       /\ (forall e, extract_inode_data fuel image inode = Raise e ->
                     e = StructError))
    /\ (indirect1 inode = 0 -> indirect2 inode = 0 -> indirect3 inode = 0 ->
        forall fuel,
          extract_inode_data fuel image inode
          = Ok (firstn (N.to_nat (size inode))
                  (payloads image (until_zero (direct inode))))).
Proof.
  intros image inode. split.
  - intros fuel Hfuel. rewrite !extract_inode_data_refines by lia.
    split; [reflexivity|]. intros e.
    destruct (resolveDataBlocks image inode) as [bl|e'] eqn:Hbl; cbn [rbind];
      [discriminate|].
    intros H. injection H as <-. now apply resolveDataBlocks_error in Hbl.
  - intros H1 H2 H3 fuel. unfold extract_inode_data, add_indirect.
    rewrite H1, H2, H3. cbn [N.eqb rbind]. now rewrite direct_loop_payloads.
Qed.

Lemma extract_inode_data_failures_witness :
  (3 <= 7)%nat
  /\ extract_inode_data 7 demo_image big_inode = extract_inode_data 3 demo_image big_inode
  /\ indirect1 hello_inode = 0 /\ indirect2 hello_inode = 0 /\ indirect3 hello_inode = 0
  /\ extract_inode_data 0 truncated_image hello_inode
     = Ok (firstn (N.to_nat (size hello_inode))
             (payloads truncated_image (until_zero (direct hello_inode)))).
Proof.
  assert (Hf : (3 <= 7)%nat) by lia.
  refine (conj Hf (conj _ (conj eq_refl (conj eq_refl (conj eq_refl _))))).
  - exact (proj1 (proj1 (extract_inode_data_failures demo_image big_inode) 7%nat Hf)).
  - exact (proj2 (extract_inode_data_failures truncated_image hello_inode)
             eq_refl eq_refl eq_refl 0%nat).
Defined.

(** X6. Block 0, the superblock, is never read as file content: whenever
    content extraction succeeds, the content is the prefix of the payloads
    of a list of blocks none of which is block 0. *)
Theorem superblock_is_never_content :
  forall (fuel : nat) (image : bytes) (inode : Inode) (out : bytes),
    (3 <= fuel)%nat ->
    extract_inode_data fuel image inode = Ok out ->
    exists bl,
      resolveDataBlocks image inode = Ok bl
      /\ Forall (fun b => b <> 0) bl
      /\ out = firstn (N.to_nat (size inode)) (payloads image bl).
Proof.
  intros fuel image inode out Hfuel Hout.
  rewrite extract_inode_data_refines in Hout by exact Hfuel.
  destruct (resolveDataBlocks image inode) as [bl|] eqn:Hbl; [|discriminate].
  cbn [rbind] in Hout. injection Hout as <-.
  exists bl. split; [reflexivity|]. split; [|reflexivity].
  destruct (resolveDataBlocks_parts image inode bl Hbl)
    as [single [double [triple [H1 [H2 [H3 ->]]]]]].
  apply resolve_pointer_nonzero in H1, H2, H3.
  repeat (apply Forall_app; split); try assumption.
  apply until_zero_nonzero.
Qed.

Lemma superblock_is_never_content_witness :
  (3 <= 3)%nat
  /\ extract_inode_data 3 demo_image big_inode
     = Ok (data_block "a" ++ data_block "b" ++ data_block "c")
  /\ exists bl,
       resolveDataBlocks demo_image big_inode = Ok bl
       /\ Forall (fun b => b <> 0) bl
       /\ data_block "a" ++ data_block "b" ++ data_block "c"
          = firstn (N.to_nat (size big_inode)) (payloads demo_image bl).
Proof.
  assert (Hf : (3 <= 3)%nat) by lia.
  assert (H : extract_inode_data 3 demo_image big_inode
              = Ok (data_block "a" ++ data_block "b" ++ data_block "c"))
    by (vm_compute; reflexivity).
  exact (conj Hf (conj H (superblock_is_never_content 3%nat demo_image big_inode _ Hf H))).
Defined.

Lemma py_range_first (sz : N) :
  DIR_ENTRY_SIZE * 2 < sz ->
  exists rest,
    py_range (DIR_ENTRY_SIZE * 2) sz DIR_ENTRY_SIZE = DIR_ENTRY_SIZE * 2 :: rest.
Proof.
  unfold py_range, DIR_ENTRY_SIZE. intros Hsz.
  destruct (N.to_nat ((sz - 32 * 2 + (32 - 1)) / 32)) as [|cnt] eqn:Hcnt;
    [zify; Z.to_euclidean_division_equations; lia|].
  cbn [seq map]. eexists. reflexivity.
Qed.

Lemma bind_raise {A B} (m : M A) (k : A -> M B) (t : trace) (e : exn) :
  fst (m t) = Raise e -> fst (bind m k t) = Raise e.
Proof.
  unfold bind. destruct (m t) as [[a|e'] t']; cbn [fst]; intros H;
    [discriminate H|now injection H as ->].
Qed.

Lemma ensure_dir_creates (h : host) (path : string) (t : trace) :
  (forall t' p, mkdir_fails h t' p = false) ->
  ensure_dir h path t
  = (Ok tt, t ++ (if path_exists h t path then [] else [EMkdir path])).
Proof.
  intros Hmk. unfold ensure_dir, bind, os_path_exists, os_mkdir, ret.
  destruct (path_exists h t path); cbn [negb]; [now rewrite app_nil_r|].
  now rewrite Hmk.
Qed.

(** More frames never change what a read returns: with fewer frames it
    either runs out of them or returns the same. *)
Lemma indirect_loop_fuel (p q : N -> result bytes) (indices : list N)
    (data : bytes) :
  (forall i, p i = Raise RecursionError \/ p i = q i) ->
  indirect_loop p indices data = Raise RecursionError
  \/ indirect_loop p indices data = indirect_loop q indices data.
Proof.
  intros H. revert data.
  induction indices as [|i rest IH]; intros data; cbn [indirect_loop]; [now right|].
  destruct (i =? 0); [now right|].
  destruct (H i) as [Hp|Hp]; rewrite Hp; [now left|].
  destruct (q i) as [d|e]; [apply IH|now right].
Qed.

Lemma read_indirect_block_fuel (fuel fuel' : nat) (image : bytes) (ptr : N)
    (level : Z) :
  (fuel <= fuel')%nat ->
  read_indirect_block fuel image ptr level = Raise RecursionError
  \/ read_indirect_block fuel image ptr level
     = read_indirect_block fuel' image ptr level.
Proof.
  revert fuel' ptr level.
  induction fuel as [|fuel IH]; intros fuel' ptr level Hle; [now left|].
  destruct fuel' as [|fuel']; [lia|]. cbn [read_indirect_block].
  destruct (unpack INDIRECT_BLOCK_FMT (seek_read image (ptr * BLOCK_SIZE) BLOCK_SIZE))
    as [indices|e]; cbn [rbind]; [|now right].
  apply indirect_loop_fuel. intros i.
  destruct (level =? 1)%Z; [now right|]. apply IH. lia.
Qed.

Lemma add_indirect_fuel (fuel fuel' : nat) (image : bytes) (ptr : N)
    (level : Z) (data : bytes) :
  (fuel <= fuel')%nat ->
  add_indirect fuel image ptr level data = Raise RecursionError
  \/ add_indirect fuel image ptr level data
     = add_indirect fuel' image ptr level data.
Proof.
  intros Hle. unfold add_indirect. destruct (ptr =? 0); [now right|].
  destruct (read_indirect_block_fuel fuel fuel' image ptr level Hle) as [H|H];
    rewrite H; [now left|now right].
Qed.

Lemma extract_inode_data_fuel (fuel fuel' : nat) (image : bytes) (inode : Inode) :
  (fuel <= fuel')%nat ->
  extract_inode_data fuel image inode = Raise RecursionError
  \/ extract_inode_data fuel image inode = extract_inode_data fuel' image inode.
Proof.
  intros Hle. unfold extract_inode_data.
  destruct (add_indirect_fuel fuel fuel' image (indirect1 inode) 1
              (direct_loop image (direct inode) []) Hle) as [H|H];
    rewrite H; [now left|].
  destruct (add_indirect fuel' image (indirect1 inode) 1
              (direct_loop image (direct inode) [])) as [d1|e]; cbn [rbind];
    [|now right].
  destruct (add_indirect_fuel fuel fuel' image (indirect2 inode) 2 d1 Hle) as [H2|H2];
    rewrite H2; [now left|].
  destruct (add_indirect fuel' image (indirect2 inode) 2 d1) as [d2|e]; cbn [rbind];
    [|now right].
  destruct (add_indirect_fuel fuel fuel' image (indirect3 inode) 3 d2 Hle) as [H3|H3];
    rewrite H3; [now left|now right].
Qed.

Lemma extract_inode_data_any_fuel (fuel0 fuel : nat) (image : bytes)
    (inode : Inode) (content : bytes) :
  extract_inode_data fuel0 image inode = Ok content ->
  extract_inode_data fuel image inode = Raise RecursionError
  \/ extract_inode_data fuel image inode = Ok content.
Proof.
  intros Hok. destruct (Nat.le_ge_cases fuel fuel0) as [Hle|Hle].
  - destruct (extract_inode_data_fuel fuel fuel0 image inode Hle) as [H|H];
      [now left|right; now rewrite H].
  - destruct (extract_inode_data_fuel fuel0 fuel image inode Hle) as [H|H];
      [congruence|right; now rewrite <- H].
Qed.

(** X7. The walk does not detect cycles.  When a directory whose content
    the program can read, through whichever pointers, has as its first listed
    entry (the one at byte offset 64) a record that decodes to a name and to
    the directory's own inode index, restoring it never completes: with any
    number of frames the walk ends in [RecursionError], provided creating
    directories succeeds. *)
Theorem self_referencing_directory_overflows :
  forall (h : host) (image : bytes) (inode_index : N) (inode : Inode)
         (fuel0 : nat) (content : bytes) (name : string),
    (forall t' path, mkdir_fails h t' path = false) ->
    load_inode image inode_index = Ok inode ->
    file_type inode = 1 ->
    extract_inode_data fuel0 image inode = Ok content ->
    DIR_ENTRY_SIZE * 2 < size inode ->
    decode_dir_entry (slice content (DIR_ENTRY_SIZE * 2) DIR_ENTRY_SIZE)
    = Ok (name, inode_index) ->
    forall (fuel : nat) (output_path : string) (t : trace),
      fst (extract_directory fuel h image inode_index output_path t)
      = Raise RecursionError.
Proof.
  intros h image inode_index inode fuel0 content name
    Hmk Hload Htype Hdata Hsize Hentry fuel.
  induction fuel as [|fuel IH]; intros output_path t; [reflexivity|].
  destruct (extract_inode_data_any_fuel fuel0 fuel image inode content Hdata)
    as [Hrec|Hok].
  - cbn [extract_directory]. unfold bind at 1. unfold lift at 1.
    rewrite Hload, Htype. cbn [N.eqb Pos.eqb].
    unfold bind at 1. rewrite ensure_dir_creates by exact Hmk.
    unfold bind at 1. unfold lift at 1. now rewrite Hrec.
  - rewrite (extract_directory_dir fuel h image inode_index output_path inode
               content t Hload Htype Hok).
    destruct (py_range_first (size inode) Hsize) as [rest ->].
    unfold bind at 1. rewrite ensure_dir_creates by exact Hmk.
    cbn [for_each]. apply bind_raise. unfold bind, lift. rewrite Hentry.
    cbn [fst snd]. apply IH.
Qed.

Lemma self_referencing_directory_overflows_witness :
  (forall t' path, mkdir_fails fresh_host t' path = false)
  /\ load_inode loop_image 0 = Ok loop_root
  /\ extract_inode_data 1 loop_image loop_root = Ok loop_content
  /\ decode_dir_entry (slice loop_content (DIR_ENTRY_SIZE * 2) DIR_ENTRY_SIZE)
     = Ok ("loop"%string, 0)
  /\ fst (extract_directory 50 fresh_host loop_image 0 "out" []) = Raise RecursionError
  /\ fst (cli 50 fresh_host loop_image "out" Restore []) = Raise RecursionError.
Proof.
  assert (Hmk : forall (t' : trace) (path : string),
             mkdir_fails fresh_host t' path = false) by (intros t' path; reflexivity).
  assert (Hload : load_inode loop_image 0 = Ok loop_root) by (vm_compute; reflexivity).
  assert (Hdata : extract_inode_data 1 loop_image loop_root = Ok loop_content)
    by (vm_compute; reflexivity).
  assert (Hsize : DIR_ENTRY_SIZE * 2 < size loop_root) by reflexivity.
  assert (Hentry : decode_dir_entry
                     (slice loop_content (DIR_ENTRY_SIZE * 2) DIR_ENTRY_SIZE)
                   = Ok ("loop"%string, 0)) by (vm_compute; reflexivity).
  refine (conj Hmk (conj Hload (conj Hdata (conj Hentry (conj _ _))))).
  - exact (self_referencing_directory_overflows fresh_host loop_image 0 loop_root
             1%nat loop_content "loop"%string Hmk Hload eq_refl Hdata Hsize Hentry
             50%nat "out"%string []).
  - vm_compute. reflexivity.
Defined.

Lemma prefix_append (a b : string) : String.prefix a (a ++ b) = true.
Proof.
  induction a as [|c a IH]; cbn; [now destruct b|].
  destruct (ascii_dec c c); [exact IH|contradiction].
Qed.

(** X8. Entry names are joined to the parent path as they are.  A name that
    begins with [/] replaces the parent path, so the child is restored at
    that absolute path, outside the output directory; any other name gives a
    path that begins with the parent path. *)
Theorem absolute_names_escape :
  forall (fuel : nat) (h : host) (image : bytes) (output_path : string)
         (raw : bytes) (name : string) (child : N) (t : trace),
    decode_dir_entry raw = Ok (name, child) ->
    (String.prefix "/" name = true ->
     path_join output_path name = name
     /\ (entry <- lift (decode_dir_entry raw) ;;
         extract_directory fuel h image (snd entry)
           (path_join output_path (fst entry)))%host t
        = extract_directory fuel h image child name t)
    /\ (String.prefix "/" name = false ->
        String.prefix output_path (path_join output_path name) = true).
Proof.
  intros fuel h image output_path raw name child t Hentry. split.
  - intros Habs.
    assert (Hjoin : path_join output_path name = name)
      by (unfold path_join; now rewrite Habs).
    split; [exact Hjoin|].
    unfold bind, lift. rewrite Hentry. cbn [fst snd]. now rewrite Hjoin.
  - intros Hrel. unfold path_join. rewrite Hrel.
    destruct (String.eqb output_path EmptyString || ends_with_slash output_path);
      apply prefix_append.
Qed.

Lemma absolute_names_escape_witness :
  decode_dir_entry absolute_entry = Ok ("/tmp/x"%string, 3)
  /\ String.prefix "/" "/tmp/x" = true
  /\ path_join "out" "/tmp/x" = "/tmp/x"%string
  /\ String.prefix "/" "hello" = false
  /\ String.prefix "out" (path_join "out" "hello") = true.
Proof.
  assert (Hd : decode_dir_entry absolute_entry = Ok ("/tmp/x"%string, 3)) by reflexivity.
  pose proof (absolute_names_escape 3%nat fresh_host demo_image "out"%string
                absolute_entry "/tmp/x"%string 3 [] Hd) as [Habs _].
  assert (Hh : decode_dir_entry (dir_entry_record ["h"; "e"; "l"; "l"; "o"]%byte 3)
               = Ok ("hello"%string, 3)) by reflexivity.
  pose proof (absolute_names_escape 3%nat fresh_host demo_image "out"%string
                _ "hello"%string 3 [] Hh) as [_ Hrel].
  exact (conj Hd (conj eq_refl (conj (proj1 (Habs eq_refl))
           (conj eq_refl (Hrel eq_refl))))).
Defined.

(** * Further properties: directory entries and names *)

Lemma string_of_list_byte_length (l : bytes) :
  String.length (string_of_list_byte l) = List.length l.
Proof.
  induction l as [|b l IH]; cbn; [reflexivity|now rewrite <- IH].
Qed.

Lemma before_null_length (name : bytes) :
  (List.length (before_null name) <= List.length name)%nat.
Proof.
  induction name as [|b rest IH]; cbn [before_null List.length]; [lia|].
  destruct (Byte.eqb b x00); cbn [List.length]; lia.
Qed.

Lemma before_null_Forall (P : byte -> Prop) (name : bytes) :
  Forall P name -> Forall P (before_null name).
Proof.
  induction 1 as [|b rest Hb _ IH]; cbn [before_null]; [constructor|].
  destruct (Byte.eqb b x00); [constructor|now constructor].
Qed.

Lemma decode_dir_entry_wrong_size (raw : bytes) :
  List.length raw <> 32%nat -> decode_dir_entry raw = Raise StructError.
Proof.
  intros H. unfold decode_dir_entry. now rewrite unpack_short.
Qed.

(** X9. A directory entry is decoded only from exactly 32 bytes; any other
    length raises [struct.error].  A decoded name is the UTF-8 text of the
    bytes before the first null byte of the name field, so it is at most 28
    bytes long and holds no null byte, and the child index is below 2^32. *)
Theorem decode_dir_entry_shape :
  forall raw : bytes,
    (List.length raw <> 32%nat -> decode_dir_entry raw = Raise StructError)
    /\ (forall name child,
           decode_dir_entry raw = Ok (name, child) ->
           List.length raw = 32%nat
           /\ list_byte_of_string name = before_null (firstn 28 raw)
           /\ utf8_valid (list_byte_of_string name) = true
           /\ (String.length name <= 28)%nat
           /\ ~ In x00 (list_byte_of_string name)
           /\ child = field32 raw 28
           /\ child < 2 ^ 32).
Proof.
  intros raw. split; [apply decode_dir_entry_wrong_size|].
  intros name child Hd.
  assert (Hlen : List.length raw = 32%nat).
  { destruct (Nat.eq_dec (List.length raw) 32) as [H|H]; [exact H|].
    rewrite decode_dir_entry_wrong_size in Hd by exact H. discriminate. }
  split; [exact Hlen|].
  rewrite decode_dir_entry_eq in Hd by exact Hlen. unfold py_decode in Hd.
  fold (field32 raw 28) in Hd.
  assert (Hfield : (List.length (firstn 28 raw) <= 28)%nat)
    by (rewrite length_firstn; lia).
  remember (firstn 28 raw) as name_field eqn:Hnf. clear Hnf.
  remember (field32 raw 28) as idx eqn:Hidx.
  destruct (utf8_valid (before_null name_field)) eqn:Hv; [|discriminate].
  cbn [rbind] in Hd. injection Hd as <- <-.
  rewrite list_byte_of_string_of_list_byte, string_of_list_byte_length.
  split; [reflexivity|]. split; [exact Hv|]. split.
  - pose proof (before_null_length name_field) as H. lia.
  - split; [|split; [reflexivity|subst idx; apply field32_bound]].
    destruct (before_null_split name_field) as [rest [_ [Hnn _]]].
    rewrite Forall_forall in Hnn. intros Hin. now apply (Hnn x00 Hin).
Qed.

Lemma decode_dir_entry_shape_witness :
  List.length (firstn 31 absolute_entry) <> 32%nat
  /\ decode_dir_entry (firstn 31 absolute_entry) = Raise StructError
  /\ decode_dir_entry absolute_entry = Ok ("/tmp/x"%string, 3)
  /\ (String.length "/tmp/x" <= 28)%nat.
Proof.
  assert (H31 : List.length (firstn 31 absolute_entry) <> 32%nat)
    by (vm_compute; discriminate).
  assert (Hd : decode_dir_entry absolute_entry = Ok ("/tmp/x"%string, 3)) by reflexivity.
  refine (conj H31 (conj _ (conj Hd _))).
  - exact (proj1 (decode_dir_entry_shape (firstn 31 absolute_entry)) H31).
  - exact (proj1 (proj2 (proj2 (proj2 (proj2 (decode_dir_entry_shape absolute_entry)
                                              "/tmp/x"%string 3 Hd))))).
Defined.

Lemma utf8_valid_ascii (bs : bytes) :
  Forall (fun b => Byte.to_N b < 128) bs -> utf8_valid bs = true.
Proof.
  induction 1 as [|b rest Hb _ IH]; cbn [utf8_valid]; [reflexivity|].
  cbn beta in Hb. unfold in_range at 1.
  replace (0 <=? Byte.to_N b) with true by (symmetry; apply N.leb_le; lia).
  replace (Byte.to_N b <=? 127) with true by (symmetry; apply N.leb_le; lia).
  exact IH.
Qed.

(** X10. A name field made of ASCII bytes always decodes: the entry yields
    the bytes before the first null byte, unchanged, as its name. *)
Theorem ascii_names_decode :
  forall raw : bytes,
    List.length raw = 32%nat ->
    Forall (fun b => Byte.to_N b < 128) (firstn 28 raw) ->
    decode_dir_entry raw
    = Ok (string_of_list_byte (before_null (firstn 28 raw)), field32 raw 28).
Proof.
  intros raw Hlen Hascii. rewrite decode_dir_entry_eq by exact Hlen.
  unfold py_decode. rewrite utf8_valid_ascii by now apply before_null_Forall.
  reflexivity.
Qed.

Lemma ascii_names_decode_witness :
  List.length absolute_entry = 32%nat
  /\ Forall (fun b => Byte.to_N b < 128) (firstn 28 absolute_entry)
  /\ decode_dir_entry absolute_entry
     = Ok (string_of_list_byte (before_null (firstn 28 absolute_entry)),
           field32 absolute_entry 28).
Proof.
  assert (Ha : Forall (fun b => Byte.to_N b < 128) (firstn 28 absolute_entry))
    by (repeat constructor).
  exact (conj eq_refl (conj Ha (ascii_names_decode absolute_entry eq_refl Ha))).
Defined.

(** * Further properties: the bitmap scan *)

Lemma sorted_NoDup (l : list N) : StronglySorted N.lt l -> NoDup l.
Proof.
  induction 1 as [|x l Hs IH Hx]; constructor; [|exact IH].
  intros Hin. rewrite Forall_forall in Hx. specialize (Hx x Hin). lia.
Qed.

Lemma byte_zero (b : byte) : Byte.to_N b = 0 -> b = x00.
Proof.
  intros H. pose proof (Byte.of_to_N b) as Hb. rewrite H in Hb.
  cbn in Hb. now injection Hb.
Qed.

Lemma byte_has_bit (b : byte) :
  b <> x00 -> exists bit, bit < 8 /\ N.testbit (Byte.to_N b) bit = true.
Proof.
  intros Hb.
  assert (Hnz : Byte.to_N b <> 0) by (intros H; now apply Hb, byte_zero).
  exists (N.log2 (Byte.to_N b)). split; [|now apply N.bit_log2].
  apply N.log2_lt_pow2; [lia|]. pose proof (Byte.to_N_bounded b).
  change (2 ^ 8) with 256. lia.
Qed.

Lemma inode_indices_In (data : bytes) (x : N) :
  In x (inode_indices data)
  <-> exists i b bit,
        nth_error data i = Some b /\ bit < 8
        /\ N.testbit (Byte.to_N b) bit = true /\ x = N.of_nat i * 8 + bit.
Proof.
  unfold inode_indices. rewrite bitmap_indices_In. split.
  - intros [i [byte [bit [Hnth [Hlt [Hset Hx]]]]]].
    rewrite nth_error_map in Hnth.
    destruct (nth_error data i) as [b|] eqn:Hb; [|discriminate].
    injection Hnth as <-. exists i, b, bit. now repeat split.
  - intros [i [b [bit [Hnth [Hlt [Hset Hx]]]]]].
    exists i, (Byte.to_N b), bit. rewrite nth_error_map, Hnth. now repeat split.
Qed.

Lemma inode_indices_zero (data : bytes) :
  inode_indices data = [] <-> Forall (fun b => b = x00) data.
Proof.
  split.
  - intros Hnil. apply Forall_forall. intros b Hin.
    destruct (Byte.byte_eq_dec b x00) as [|Hb]; [assumption|exfalso].
    destruct (byte_has_bit b Hb) as [bit [Hlt Hset]].
    apply In_nth_error in Hin. destruct Hin as [i Hi].
    assert (Hx : In (N.of_nat i * 8 + bit) (inode_indices data))
      by (apply inode_indices_In; now exists i, b, bit).
    now rewrite Hnil in Hx.
  - intros Hz. destruct (inode_indices data) as [|x rest] eqn:Hidx; [reflexivity|].
    assert (Hx : In x (inode_indices data)) by (rewrite Hidx; now left).
    apply inode_indices_In in Hx. destruct Hx as [i [b [bit [Hnth [_ [Hset _]]]]]].
    apply nth_error_In in Hnth. rewrite Forall_forall in Hz.
    rewrite (Hz b Hnth) in Hset. cbn in Hset. discriminate Hset.
Qed.

(** X11. The inode indices flat extraction visits are pairwise distinct and
    below 4096, indeed below eight times the number of bitmap bytes the
    image holds after offset 512.  None is visited exactly when every byte
    of the bitmap block is zero, or the image ends before it; flat
    extraction then only makes sure the output directory exists. *)
Theorem inode_indices_bounds :
  forall (fuel : nat) (h : host) (image : bytes) (output_dir : string) (t : trace),
    let bitmap := seek_read image BLOCK_SIZE BLOCK_SIZE in
    NoDup (inode_indices bitmap)
    /\ Forall (fun i => i < 4096 /\ i < 8 * N.of_nat (List.length bitmap))
              (inode_indices bitmap)
    /\ (inode_indices bitmap = [] <-> Forall (fun b => b = x00) bitmap)
    /\ (Forall (fun b => b = x00) bitmap ->
        extract_all_files fuel h image output_dir t = ensure_dir h output_dir t).
Proof.
  intros fuel h image output_dir t bitmap.
  split; [apply sorted_NoDup; unfold inode_indices; apply bitmap_indices_sorted|].
  split; [|split; [apply inode_indices_zero|]].
  - apply Forall_forall. intros x Hx. apply inode_indices_In in Hx.
    destruct Hx as [i [b [bit [Hnth [Hlt [_ ->]]]]]].
    assert (Hi : (i < List.length bitmap)%nat)
      by (apply nth_error_Some; congruence).
    assert (Hlen : (List.length bitmap <= 512)%nat)
      by (unfold bitmap, BLOCK_SIZE; rewrite seek_read_length; lia).
    lia.
  - intros Hz. apply inode_indices_zero in Hz. unfold extract_all_files.
    fold bitmap. rewrite Hz. cbn [for_each]. apply bind_ret_unit.
Qed.

Lemma inode_indices_bounds_witness :
  Forall (fun b => b = x00)
    (seek_read (super_block MAGIC_NUMBER ++ blank_block) BLOCK_SIZE BLOCK_SIZE)
  /\ extract_all_files 3 fresh_host (super_block MAGIC_NUMBER ++ blank_block) "out" []
     = ensure_dir fresh_host "out" [].
Proof.
  assert (Hz : Forall (fun b => b = x00)
                 (seek_read (super_block MAGIC_NUMBER ++ blank_block)
                    BLOCK_SIZE BLOCK_SIZE))
    by (replace (seek_read (super_block MAGIC_NUMBER ++ blank_block)
                   BLOCK_SIZE BLOCK_SIZE)
          with (repeat x00 512) by (vm_compute; reflexivity);
        apply Forall_forall; intros b Hb; apply repeat_spec in Hb; exact Hb).
  exact (conj Hz (proj2 (proj2 (proj2 (inode_indices_bounds 3%nat fresh_host
                   (super_block MAGIC_NUMBER ++ blank_block) "out"%string []))) Hz)).
Defined.

(** * Further properties: failures during extraction *)

Lemma for_each_app {A} (xs ys : list A) (body : A -> M unit) (t : trace) :
  for_each (xs ++ ys) body t
  = bind (for_each xs body) (fun _ => for_each ys body) t.
Proof.
  revert t. induction xs as [|x xs IH]; intros t; cbn [app for_each].
  - reflexivity.
  - unfold bind. destruct (body x t) as [[[]|e] t']; [|reflexivity].
    rewrite IH. reflexivity.
Qed.

Lemma extract_one_raises (fuel : nat) (h : host) (image : bytes)
    (output_dir : string) (inode_index : N) (e : exn) (t : trace) :
  (load_inode image inode_index = Raise e
   \/ exists inode,
        load_inode image inode_index = Ok inode /\ file_type inode <> 1
        /\ extract_inode_data fuel image inode = Raise e) ->
  extract_one fuel h image output_dir inode_index t = (Raise e, t).
Proof.
  unfold extract_one, bind, lift.
  intros [Hload | [inode [Hload [Htype Hdata]]]]; rewrite Hload; [reflexivity|].
  destruct (N.eqb_spec (file_type inode) 1); [contradiction|].
  now rewrite Hdata.
Qed.

(** X12. Flat extraction stops at the first allocated inode whose record or
    content cannot be read: when the inodes before it were extracted (their
    records and contents readable, the host's calls succeeding, their
    messages accepted by rich), the error of that inode is raised, their
    files stay written, and no later inode is looked at. *)
Theorem flat_extraction_stops_at_first_failure :
  forall (fuel : nat) (h : host) (image : bytes) (output_dir : string) (t : trace)
         (good rest : list N) (bad : N) (e : exn),
    obliging h ->
    inode_indices (seek_read image BLOCK_SIZE BLOCK_SIZE) = good ++ bad :: rest ->
    Forall (extractable fuel image) good ->
    Forall (fun i => accepted h (flat_path output_dir i)) good ->
    (load_inode image bad = Raise e
     \/ exists inode,
          load_inode image bad = Ok inode /\ file_type inode <> 1
          /\ extract_inode_data fuel image inode = Raise e) ->
    extract_all_files fuel h image output_dir t
    = (Raise e,
       t ++ (if path_exists h t output_dir then [] else [EMkdir output_dir])
         ++ flat_events fuel image output_dir good).
Proof.
  intros fuel h image output_dir t good rest bad e Hh Hidx Hgood Hacc Hbad.
  unfold extract_all_files. rewrite Hidx. unfold bind at 1.
  rewrite ensure_dir_obliging by exact Hh.
  rewrite for_each_app. unfold bind at 1.
  rewrite for_each_extract_one by assumption.
  cbn [for_each]. unfold bind at 1.
  rewrite (extract_one_raises fuel h image output_dir bad e _ Hbad).
  now rewrite <- app_assoc.
Qed.

Lemma flat_extraction_stops_at_first_failure_witness :
  obliging fresh_host
  /\ inode_indices (seek_read clipped_image BLOCK_SIZE BLOCK_SIZE) = [0; 3] ++ 5 :: []
  /\ Forall (extractable 3 clipped_image) [0; 3]
  /\ Forall (fun i => accepted fresh_host (flat_path "out" i)) [0; 3]
  /\ load_inode clipped_image 5 = Raise StructError
  /\ extract_all_files 3 fresh_host clipped_image "out" []
     = (Raise StructError,
        [] ++ (if path_exists fresh_host [] "out" then [] else [EMkdir "out"])
           ++ flat_events 3 clipped_image "out" [0; 3]).
Proof.
  assert (Hh : obliging fresh_host) by (split; reflexivity).
  assert (Hidx : inode_indices (seek_read clipped_image BLOCK_SIZE BLOCK_SIZE)
                 = [0; 3] ++ 5 :: []) by (vm_compute; reflexivity).
  assert (H0 : load_inode clipped_image 0 = Ok root_inode) by (vm_compute; reflexivity).
  assert (H3 : load_inode clipped_image 3 = Ok hello_inode) by (vm_compute; reflexivity).
  assert (Hc3 : extract_inode_data 3 clipped_image hello_inode = Ok [])
    by (vm_compute; reflexivity).
  assert (Hgood : Forall (extractable 3 clipped_image) [0; 3]).
  { constructor; [|constructor; [|constructor]].
    - exists root_inode. split; [exact H0|]. intros Hn. now contradiction Hn.
    - exists hello_inode. split; [exact H3|]. intros _. now exists []. }
  assert (H5 : load_inode clipped_image 5 = Raise StructError)
    by (vm_compute; reflexivity).
  assert (Hacc : Forall (fun i => accepted fresh_host (flat_path "out" i)) [0; 3])
    by (constructor; [reflexivity|constructor; [reflexivity|constructor]]).
  refine (conj Hh (conj Hidx (conj Hgood (conj Hacc (conj H5 _))))).
  exact (flat_extraction_stops_at_first_failure 3%nat fresh_host clipped_image
           "out"%string [] [0; 3] [] 5 StructError Hh Hidx Hgood Hacc (or_introl H5)).
Defined.

(** X13. The two modes treat file types differently.  A directory inode is
    skipped by flat extraction; an inode whose type is neither 0 nor 1 is
    skipped without a trace by the walk, but flat extraction, when the
    inode's content is read and its output file can be opened, writes that
    content like a file's; a regular file whose content is read and whose
    output file can be opened gets that content written by the walk too.
    After the write the message is printed, and the call raises
    [MarkupError] instead when rich rejects it. *)
Theorem modes_by_file_type :
  forall (fuel : nat) (h : host) (image : bytes) (inode_index : N) (inode : Inode)
         (output_path output_dir : string) (t : trace),
    load_inode image inode_index = Ok inode ->
    (file_type inode = 1 ->
     extract_one fuel h image output_dir inode_index t = (Ok tt, t))
    /\ (file_type inode <> 0 -> file_type inode <> 1 ->
        extract_directory (S fuel) h image inode_index output_path t = (Ok tt, t))
    /\ (forall content,
           file_type inode <> 1 ->
           extract_inode_data fuel image inode = Ok content ->
           open_fails h t (flat_path output_dir inode_index) = false ->
           extract_one fuel h image output_dir inode_index t
           = (if print_fails h (extracted_msg (flat_path output_dir inode_index))
                   [flat_path output_dir inode_index]
              then (Raise MarkupError,
                    t ++ [EWrite (flat_path output_dir inode_index) content])
              else (Ok tt,
                    t ++ [EWrite (flat_path output_dir inode_index) content;
                          EPrint (extracted_msg (flat_path output_dir inode_index))]))
           /\ host_changes (snd (extract_one fuel h image output_dir inode_index t))
              = host_changes t ++ [EWrite (flat_path output_dir inode_index) content])
    /\ (forall content,
           file_type inode = 0 ->
           extract_inode_data fuel image inode = Ok content ->
           open_fails h t output_path = false ->
           extract_directory (S fuel) h image inode_index output_path t
           = (if print_fails h (extracted_msg output_path) [output_path]
              then (Raise MarkupError, t ++ [EWrite output_path content])
              else (Ok tt,
                    t ++ [EWrite output_path content;
                          EPrint (extracted_msg output_path)]))
           /\ host_changes
                (snd (extract_directory (S fuel) h image inode_index output_path t))
              = host_changes t ++ [EWrite output_path content]).
Proof.
  intros fuel h image inode_index inode output_path output_dir t Hload.
  split; [|split; [|split]].
  - intros Hdir. now apply extract_one_directory with (inode := inode).
  - intros H0 H1. cbn [extract_directory]. unfold bind, lift. rewrite Hload.
    destruct (N.eqb_spec (file_type inode) 1); [contradiction|].
    destruct (N.eqb_spec (file_type inode) 0); [contradiction|reflexivity].
  - intros content Htype Hdata Hopen. unfold flat_path in *.
    rewrite (extract_one_file_run fuel h image output_dir inode_index inode content t
               Hload Htype Hdata Hopen).
    split; [reflexivity|apply host_changes_written].
  - intros content Htype Hdata Hopen.
    rewrite (extract_directory_file_run fuel h image inode_index output_path inode
               content t Hload Htype Hdata Hopen).
    split; [reflexivity|apply host_changes_written].
Qed.

Lemma modes_by_file_type_witness :
  load_inode odd_image 3 = Ok device_inode
  /\ file_type device_inode <> 0 /\ file_type device_inode <> 1
  /\ extract_directory 4 fresh_host odd_image 3 "out/hello" [] = (Ok tt, [])
  /\ host_changes (snd (extract_one 3 fresh_host odd_image "out" 3 []))
     = host_changes []
       ++ [EWrite (flat_path "out" 3) (firstn 600 (data_block "a" ++ data_block "b"))].
Proof.
  assert (Hload : load_inode odd_image 3 = Ok device_inode) by (vm_compute; reflexivity).
  assert (H0 : file_type device_inode <> 0) by (vm_compute; discriminate).
  assert (H1 : file_type device_inode <> 1) by (vm_compute; discriminate).
  assert (Hdata : extract_inode_data 3 odd_image device_inode
                  = Ok (firstn 600 (data_block "a" ++ data_block "b")))
    by (vm_compute; reflexivity).
  pose proof (modes_by_file_type 3%nat fresh_host odd_image 3 device_inode
                "out/hello"%string "out"%string [] Hload) as [_ [Hwalk [Hflat _]]].
  exact (conj Hload (conj H0 (conj H1 (conj (Hwalk H0 H1)
           (proj2 (Hflat _ H1 Hdata eq_refl)))))).
Defined.

Lemma extract_inode_data_length (fuel : nat) (image : bytes) (inode : Inode)
    (out : bytes) :
  extract_inode_data fuel image inode = Ok out ->
  (List.length out <= N.to_nat (size inode))%nat.
Proof.
  unfold extract_inode_data.
  destruct (add_indirect fuel image (indirect1 inode) 1 _) as [d1|]; [|discriminate].
  cbn [rbind].
  destruct (add_indirect fuel image (indirect2 inode) 2 d1) as [d2|]; [|discriminate].
  cbn [rbind].
  destruct (add_indirect fuel image (indirect3 inode) 3 d2) as [d3|]; [|discriminate].
  cbn [rbind]. intros H. injection H as <-. rewrite length_firstn. lia.
Qed.

Lemma for_each_raises {A} (xs : list A) (body : A -> M unit) (x : A) :
  In x xs ->
  (forall t, exists e, fst (body x t) = Raise e) ->
  forall t, exists e, fst (for_each xs body t) = Raise e.
Proof.
  intros Hin Hx. induction xs as [|a xs IH]; [contradiction|].
  intros t. cbn [for_each]. unfold bind.
  destruct (body a t) as [[[]|e] t'] eqn:Ha; [|now exists e].
  destruct Hin as [->|Hin]; [|now apply IH].
  destruct (Hx t) as [e He]. rewrite Ha in He. discriminate He.
Qed.

Lemma last_slice_is_short (content : bytes) (sz : N) :
  (List.length content <= N.to_nat sz)%nat ->
  DIR_ENTRY_SIZE * 2 < sz ->
  ((List.length content < N.to_nat sz)%nat
   \/ (sz - DIR_ENTRY_SIZE * 2) mod DIR_ENTRY_SIZE <> 0) ->
  exists offset,
    In offset (py_range (DIR_ENTRY_SIZE * 2) sz DIR_ENTRY_SIZE)
    /\ List.length (slice content offset DIR_ENTRY_SIZE) <> 32%nat.
Proof.
  unfold py_range, slice, DIR_ENTRY_SIZE. intros Hlen Hsz Hbad.
  set (cnt := N.to_nat ((sz - 32 * 2 + (32 - 1)) / 32)).
  assert (Hcnt : (1 <= cnt)%nat)
    by (unfold cnt; zify; Z.to_euclidean_division_equations; lia).
  exists (32 * 2 + 32 * N.of_nat (cnt - 1)). split.
  - apply in_map_iff. exists (cnt - 1)%nat. split; [reflexivity|].
    apply in_seq. lia.
  - rewrite length_firstn, length_skipn. unfold cnt in *.
    zify; Z.to_euclidean_division_equations; lia.
Qed.

(** X14. A directory that declares more than 64 bytes but whose declared
    size is not 64 plus a whole number of 32-byte entries, or whose content
    is shorter than declared, cannot be restored: the walk always ends in an
    exception, after the entries before the short one have been handled. *)
Theorem ragged_directory_fails :
  forall (fuel : nat) (h : host) (image : bytes) (inode_index : N)
         (output_path : string) (inode : Inode) (content : bytes) (t : trace),
    load_inode image inode_index = Ok inode ->
    file_type inode = 1 ->
    extract_inode_data fuel image inode = Ok content ->
    DIR_ENTRY_SIZE * 2 < size inode ->
    ((List.length content < N.to_nat (size inode))%nat
     \/ (size inode - DIR_ENTRY_SIZE * 2) mod DIR_ENTRY_SIZE <> 0) ->
    exists e,
      fst (extract_directory (S fuel) h image inode_index output_path t) = Raise e.
Proof.
  intros fuel h image inode_index output_path inode content t
    Hload Htype Hdata Hsize Hbad.
  rewrite (extract_directory_dir fuel h image inode_index output_path inode content t
             Hload Htype Hdata).
  destruct (last_slice_is_short content (size inode)
              (extract_inode_data_length fuel image inode content Hdata) Hsize Hbad)
    as [offset [Hin Hshort]].
  unfold bind at 1.
  destruct (ensure_dir h output_path t) as [[[]|e] t']; [|now exists e].
  apply (for_each_raises _ _ offset Hin). intros t0. exists StructError.
  unfold bind, lift. now rewrite decode_dir_entry_wrong_size.
Qed.

Lemma ragged_directory_fails_witness :
  load_inode ragged_image 0 = Ok ragged_root
  /\ DIR_ENTRY_SIZE * 2 < size ragged_root
  /\ (size ragged_root - DIR_ENTRY_SIZE * 2) mod DIR_ENTRY_SIZE <> 0
  /\ (exists e,
         fst (extract_directory 4 fresh_host ragged_image 0 "out" []) = Raise e)
  /\ written_files (snd (extract_directory 4 fresh_host ragged_image 0 "out" []))
     = ["out/hello"%string].
Proof.
  assert (Hload : load_inode ragged_image 0 = Ok ragged_root) by (vm_compute; reflexivity).
  assert (Hdata : extract_inode_data 3 ragged_image ragged_root
                  = Ok (firstn 100 root_content)) by (vm_compute; reflexivity).
  assert (Hsize : DIR_ENTRY_SIZE * 2 < size ragged_root) by reflexivity.
  assert (Hmod : (size ragged_root - DIR_ENTRY_SIZE * 2) mod DIR_ENTRY_SIZE <> 0)
    by (vm_compute; discriminate).
  refine (conj Hload (conj Hsize (conj Hmod (conj _ _)))).
  - exact (ragged_directory_fails 3%nat fresh_host ragged_image 0 "out"%string
             ragged_root _ [] Hload eq_refl Hdata Hsize (or_intror Hmod)).
  - vm_compute. reflexivity.
Defined.

(** * Further properties: whole runs *)

Lemma for_each_restore_files (fuel : nat) (h : host) (image : bytes)
    (output_path : string) (records : list bytes) (t : trace) :
  obliging h ->
  Forall (plain_file_entry fuel image) records ->
  Forall (entry_accepted h output_path) records ->
  for_each records
    (fun raw =>
       entry <- lift (decode_dir_entry raw) ;;
       extract_directory (S fuel) h image (snd entry)
         (path_join output_path (fst entry)))%host t
  = (Ok tt, t ++ restored_events fuel image output_path records).
Proof.
  intros Hh Hall. revert t.
  induction Hall as [|raw rest [name [child [inode [content [Hd [Hl [Ht Hc]]]]]]] _ IH];
    intros t Hacc; cbn [for_each restored_events flat_map];
    [unfold ret; now rewrite app_nil_r|].
  fold (restored_events fuel image output_path rest).
  inversion Hacc as [|raw' rest' Hraw Hrest]; subst raw' rest'.
  rewrite Hd, Hl, Hc. unfold bind at 1. unfold bind at 1. unfold lift at 1.
  cbn [fst snd].
  rewrite (extract_directory_file fuel h image child (path_join output_path name)
             inode content t Hl Ht Hc (proj2 Hh _ _) (Hraw name child Hd)).
  rewrite IH by exact Hrest. now rewrite <- app_assoc.
Qed.

Lemma extract_directory_of_files :
  forall (fuel : nat) (h : host) (image : bytes) (inode_index : N)
         (output_path : string) (inode : Inode) (content : bytes) (t : trace),
    obliging h ->
    load_inode image inode_index = Ok inode ->
    file_type inode = 1 ->
    extract_inode_data (S fuel) image inode = Ok content ->
    List.length content = N.to_nat (size inode) ->
    Forall (plain_file_entry fuel image) (dir_records content) ->
    Forall (entry_accepted h output_path) (dir_records content) ->
    extract_directory (S (S fuel)) h image inode_index output_path t
    = (Ok tt,
       t ++ (if path_exists h t output_path then [] else [EMkdir output_path])
         ++ restored_events fuel image output_path (dir_records content)).
Proof.
  intros fuel h image inode_index output_path inode content t
    Hh Hload Htype Hdata Hlen Hall Hacc.
  rewrite (extract_directory_dir (S fuel) h image inode_index output_path inode
             content t Hload Htype Hdata).
  unfold bind at 1. rewrite ensure_dir_obliging by exact Hh.
  rewrite <- (range_slices_are_records content (size inode) Hlen) in Hall.
  rewrite <- (range_slices_are_records content (size inode) Hlen) in Hacc.
  pose proof (for_each_restore_files fuel h image output_path _
                (t ++ (if path_exists h t output_path then [] else [EMkdir output_path]))
                Hh Hall Hacc) as Hrun.
  rewrite for_each_map in Hrun. cbn beta in Hrun. rewrite Hrun.
  rewrite (range_slices_are_records content (size inode) Hlen).
  now rewrite <- app_assoc.
Qed.

(** X15. On a host whose directory creations and file openings succeed,
    restoring a directory whose content is read in full, whose entries all
    name readable regular files, and for each of whose entries rich accepts
    the message about the file written, writes, for each entry in the order
    of the directory, the child's content to the file called after the entry
    under the directory's path and prints that message, after having created
    the directory if it was not there. *)
Theorem restore_directory_of_files :
  forall (fuel : nat) (h : host) (image : bytes) (inode_index : N)
         (output_path : string) (inode : Inode) (content : bytes) (t : trace),
    obliging h ->
    load_inode image inode_index = Ok inode ->
    file_type inode = 1 ->
    extract_inode_data (S fuel) image inode = Ok content ->
    List.length content = N.to_nat (size inode) ->
    Forall (plain_file_entry fuel image) (dir_records content) ->
    Forall (entry_accepted h output_path) (dir_records content) ->
    extract_directory (S (S fuel)) h image inode_index output_path t
    = (Ok tt,
       t ++ (if path_exists h t output_path then [] else [EMkdir output_path])
         ++ restored_events fuel image output_path (dir_records content)).
Proof.
  intros fuel h image inode_index output_path inode content t.
  apply extract_directory_of_files.
Qed.

Lemma restore_directory_of_files_witness :
  obliging fresh_host
  /\ load_inode demo_image 0 = Ok root_inode
  /\ extract_inode_data 4 demo_image root_inode = Ok root_content
  /\ Forall (plain_file_entry 3 demo_image) (dir_records root_content)
  /\ Forall (entry_accepted fresh_host "out") (dir_records root_content)
  /\ extract_directory 5 fresh_host demo_image 0 "out" []
     = (Ok tt,
        [] ++ (if path_exists fresh_host [] "out" then [] else [EMkdir "out"])
           ++ restored_events 3 demo_image "out" (dir_records root_content)).
Proof.
  assert (Hh : obliging fresh_host) by (split; reflexivity).
  assert (Hload : load_inode demo_image 0 = Ok root_inode) by (vm_compute; reflexivity).
  assert (Hdata : extract_inode_data 4 demo_image root_inode = Ok root_content)
    by (vm_compute; reflexivity).
  assert (Hlen : List.length root_content = N.to_nat (size root_inode))
    by (vm_compute; reflexivity).
  assert (H3 : load_inode demo_image 3 = Ok hello_inode) by (vm_compute; reflexivity).
  assert (H5 : load_inode demo_image 5 = Ok big_inode) by (vm_compute; reflexivity).
  assert (Hc3 : extract_inode_data 3 demo_image hello_inode
                = Ok (firstn 600 (data_block "a" ++ data_block "b")))
    by (vm_compute; reflexivity).
  assert (Hc5 : extract_inode_data 3 demo_image big_inode
                = Ok (data_block "a" ++ data_block "b" ++ data_block "c"))
    by (vm_compute; reflexivity).
  assert (Hall : Forall (plain_file_entry 3 demo_image) (dir_records root_content)).
  { replace (dir_records root_content)
      with [dir_entry_record ["h"; "e"; "l"; "l"; "o"]%byte 3;
            dir_entry_record ["b"; "i"; "g"]%byte 5] by (vm_compute; reflexivity).
    constructor; [|constructor; [|constructor]].
    - exists "hello"%string, 3, hello_inode, (firstn 600 (data_block "a" ++ data_block "b")).
      exact (conj eq_refl (conj H3 (conj eq_refl Hc3))).
    - exists "big"%string, 5, big_inode, (data_block "a" ++ data_block "b" ++ data_block "c").
      exact (conj eq_refl (conj H5 (conj eq_refl Hc5))). }
  assert (Hacc : Forall (entry_accepted fresh_host "out") (dir_records root_content)).
  { replace (dir_records root_content)
      with [dir_entry_record ["h"; "e"; "l"; "l"; "o"]%byte 3;
            dir_entry_record ["b"; "i"; "g"]%byte 5] by (vm_compute; reflexivity).
    constructor; [|constructor; [|constructor]];
      intros name child Hd; vm_compute in Hd; injection Hd as <- _; reflexivity. }
  refine (conj Hh (conj Hload (conj Hdata (conj Hall (conj Hacc _))))).
  exact (restore_directory_of_files 3%nat fresh_host demo_image 0 "out"%string
           root_inode root_content [] Hh Hload eq_refl Hdata Hlen Hall Hacc).
Defined.

Lemma print_static (h : host) (text : string) (t : trace) :
  print h text [] t = (Ok tt, t ++ [EPrint text]).
Proof. apply print_plain. constructor. Qed.

Lemma print_superblock_run (h : host) (sb : list value) (t : trace) :
  print_superblock h sb t = (Ok tt, t ++ superblock_lines sb).
Proof.
  unfold print_superblock, bind, superblock_lines.
  rewrite print_static.
  rewrite (print_plain h _ [hex (int_at sb 0)])
    by (constructor; [apply hex_plain|constructor]).
  rewrite !(fun n => print_plain h _ [dec n])
    by (constructor; [apply dec_plain|constructor]).
  now rewrite <- !app_assoc.
Qed.

Lemma extract_all_files_run (fuel : nat) (h : host) (image : bytes)
    (output_dir : string) (t : trace) :
  obliging h ->
  Forall (extractable fuel image)
    (inode_indices (seek_read image BLOCK_SIZE BLOCK_SIZE)) ->
  Forall (fun i => accepted h (flat_path output_dir i))
    (inode_indices (seek_read image BLOCK_SIZE BLOCK_SIZE)) ->
  extract_all_files fuel h image output_dir t
  = (Ok tt,
     t ++ (if path_exists h t output_dir then [] else [EMkdir output_dir])
       ++ flat_events fuel image output_dir
            (inode_indices (seek_read image BLOCK_SIZE BLOCK_SIZE))).
Proof.
  intros Hh Hall Hacc. unfold extract_all_files, bind.
  rewrite ensure_dir_obliging by exact Hh.
  rewrite for_each_extract_one by assumption. now rewrite <- app_assoc.
Qed.

Lemma cli_accepts (fuel : nat) (h : host) (image : bytes) (output : string)
    (m : mode) (t : trace) :
  (512 <= List.length image)%nat ->
  le_uint (firstn 4 image) = MAGIC_NUMBER ->
  exists sb,
    cli fuel h image output m t
    = match m with
      | Restore =>
          (print h "[blue][-] Restoring directory structure...[/blue]" [] ;;
           extract_directory fuel h image 0 output ;;
           print h "[green][+] Directory structure restored.[/green]" [])%host
      | Extract =>
          (print h "[blue][-] Extracting all files...[/blue]" [] ;;
           extract_all_files fuel h image output ;;
           print h "[green][+] All files extracted.[/green]" [])%host
      end (t ++ superblock_lines sb).
Proof.
  intros Hlen Hmagic. destruct (super_block_magic image Hlen) as [sb [Hsb Hfield]].
  exists sb. unfold cli. unfold bind at 1. unfold lift at 1.
  rewrite Hsb, Hfield, Hmagic, N.eqb_refl. cbn [negb].
  unfold bind at 1. rewrite print_superblock_run. reflexivity.
Qed.

Lemma written_files_superblock_lines (sb : list value) :
  written_files (superblock_lines sb) = [].
Proof. reflexivity. Qed.

Lemma written_files_mkdir (present : bool) (path : string) :
  written_files (if present then [] else [EMkdir path]) = [].
Proof. now destruct present. Qed.

(** X16. A whole run, on an image whose first block is complete and carries
    the magic number, and on a host whose directory creations and file
    openings succeed.  In extract mode, when every allocated inode is read in
    full with its content and rich accepts the message about each file
    [inode<index>], the run completes and the files written are
    [inode<index>] for the allocated inodes that are not directories, in
    ascending index order.  In restore mode, when the root inode is a
    directory whose content is read in full, whose entries all name readable
    regular files, and rich accepts the message about each of them, the run
    completes and the files written are those named by the entries, in the
    order of the directory. *)
Theorem cli_whole_run :
  forall (fuel : nat) (h : host) (image : bytes) (output : string) (t : trace),
    (512 <= List.length image)%nat ->
    le_uint (firstn 4 image) = MAGIC_NUMBER ->
    obliging h ->
    (Forall (extractable fuel image)
       (inode_indices (seek_read image BLOCK_SIZE BLOCK_SIZE)) ->
     Forall (fun i => accepted h (flat_path output i))
       (inode_indices (seek_read image BLOCK_SIZE BLOCK_SIZE)) ->
     fst (cli fuel h image output Extract t) = Ok tt
     /\ written_files (snd (cli fuel h image output Extract t))
        = written_files t
          ++ map (flat_path output)
               (filter (fun i => negb (is_directory image i))
                  (inode_indices (seek_read image BLOCK_SIZE BLOCK_SIZE))))
    /\ (forall inode content,
           load_inode image 0 = Ok inode ->
           file_type inode = 1 ->
           extract_inode_data (S fuel) image inode = Ok content ->
           List.length content = N.to_nat (size inode) ->
           Forall (plain_file_entry fuel image) (dir_records content) ->
           Forall (entry_accepted h output) (dir_records content) ->
           fst (cli (S (S fuel)) h image output Restore t) = Ok tt
           /\ written_files (snd (cli (S (S fuel)) h image output Restore t))
              = written_files t
                ++ written_files (restored_events fuel image output
                                    (dir_records content))).
Proof.
  intros fuel h image output t Hlen Hmagic Hh. split.
  - intros Hall Hacc.
    destruct (cli_accepts fuel h image output Extract t Hlen Hmagic) as [sb ->].
    unfold bind. rewrite print_static.
    rewrite extract_all_files_run by assumption. rewrite print_static.
    cbn [fst snd]. split; [reflexivity|].
    rewrite !written_files_app, written_files_superblock_lines, written_files_mkdir.
    rewrite (written_files_flat fuel image output _ Hall). cbn [written_files app].
    now rewrite !app_nil_r.
  - intros inode content Hload Htype Hdata Hclen Hall Hacc.
    destruct (cli_accepts (S (S fuel)) h image output Restore t Hlen Hmagic) as [sb ->].
    unfold bind. rewrite print_static.
    rewrite (extract_directory_of_files fuel h image 0 output inode content _
               Hh Hload Htype Hdata Hclen Hall Hacc).
    rewrite print_static.
    cbn [fst snd]. split; [reflexivity|].
    rewrite !written_files_app, written_files_superblock_lines, written_files_mkdir.
    cbn [written_files app]. now rewrite !app_nil_r.
Qed.

Lemma cli_whole_run_witness :
  (512 <= List.length demo_image)%nat
  /\ le_uint (firstn 4 demo_image) = MAGIC_NUMBER
  /\ obliging fresh_host
  /\ Forall (extractable 3 demo_image)
       (inode_indices (seek_read demo_image BLOCK_SIZE BLOCK_SIZE))
  /\ Forall (fun i => accepted fresh_host (flat_path "out" i))
       (inode_indices (seek_read demo_image BLOCK_SIZE BLOCK_SIZE))
  /\ fst (cli 3 fresh_host demo_image "out" Extract []) = Ok tt
  /\ written_files (snd (cli 3 fresh_host demo_image "out" Extract []))
     = [] ++ map (flat_path "out")
               (filter (fun i => negb (is_directory demo_image i))
                  (inode_indices (seek_read demo_image BLOCK_SIZE BLOCK_SIZE))).
Proof.
  assert (Hlen : (512 <= List.length demo_image)%nat)
    by (apply Nat.leb_le; vm_compute; reflexivity).
  assert (Hmagic : le_uint (firstn 4 demo_image) = MAGIC_NUMBER)
    by (vm_compute; reflexivity).
  assert (Hh : obliging fresh_host) by (split; reflexivity).
  assert (H0 : load_inode demo_image 0 = Ok root_inode) by (vm_compute; reflexivity).
  assert (H3 : load_inode demo_image 3 = Ok hello_inode) by (vm_compute; reflexivity).
  assert (H5 : load_inode demo_image 5 = Ok big_inode) by (vm_compute; reflexivity).
  assert (Hc3 : extract_inode_data 3 demo_image hello_inode
                = Ok (firstn 600 (data_block "a" ++ data_block "b")))
    by (vm_compute; reflexivity).
  assert (Hc5 : extract_inode_data 3 demo_image big_inode
                = Ok (data_block "a" ++ data_block "b" ++ data_block "c"))
    by (vm_compute; reflexivity).
  assert (Hall : Forall (extractable 3 demo_image)
                   (inode_indices (seek_read demo_image BLOCK_SIZE BLOCK_SIZE))).
  { replace (inode_indices (seek_read demo_image BLOCK_SIZE BLOCK_SIZE))
      with [0; 3; 5] by (vm_compute; reflexivity).
    constructor; [|constructor; [|constructor; [|constructor]]].
    - exists root_inode. split; [exact H0|]. intros Hn. now contradiction Hn.
    - exists hello_inode. split; [exact H3|]. intros _. now eexists.
    - exists big_inode. split; [exact H5|]. intros _. now eexists. }
  assert (Hacc : Forall (fun i => accepted fresh_host (flat_path "out" i))
                   (inode_indices (seek_read demo_image BLOCK_SIZE BLOCK_SIZE))).
  { apply Forall_forall. intros i _. now apply flat_path_accepted. }
  pose proof (proj1 (cli_whole_run 3%nat fresh_host demo_image "out"%string []
                       Hlen Hmagic Hh) Hall Hacc) as [Hok Hfiles].
  exact (conj Hlen (conj Hmagic (conj Hh (conj Hall (conj Hacc (conj Hok Hfiles)))))).
Defined.

(** * Further properties: the host *)

Lemma for_each_extract_one_open (fuel : nat) (h : host) (image : bytes)
    (output_dir : string) (indices : list N) (t : trace) :
  Forall (extractable fuel image) indices ->
  (forall t' i, In i indices -> open_fails h t' (flat_path output_dir i) = false) ->
  Forall (fun i => accepted h (flat_path output_dir i)) indices ->
  for_each indices (extract_one fuel h image output_dir) t
  = (Ok tt, t ++ flat_events fuel image output_dir indices).
Proof.
  intros Hall. revert t.
  induction Hall as [|i rest [inode [Hload Hdata]] _ IH]; intros t Hopen Hacc;
    cbn [for_each flat_events flat_map]; [unfold ret; now rewrite app_nil_r|].
  apply Forall_cons_iff in Hacc. destruct Hacc as [Hi Hacc].
  fold (flat_events fuel image output_dir rest). rewrite Hload. unfold bind.
  assert (Hrest : forall t' j, In j rest ->
                               open_fails h t' (flat_path output_dir j) = false)
    by (intros t' j Hj; apply Hopen; now right).
  destruct (N.eqb_spec (file_type inode) 1) as [Hdir|Hfile].
  - rewrite (extract_one_directory fuel h image output_dir i inode t Hload Hdir).
    now apply IH.
  - destruct (Hdata Hfile) as [content Hcontent]. rewrite Hcontent.
    rewrite (extract_one_file fuel h image output_dir i inode content t
               Hload Hfile Hcontent (Hopen t i (or_introl eq_refl)) Hi).
    rewrite IH by assumption. unfold flat_path. now rewrite <- app_assoc.
Qed.

(** X17. A file that cannot be opened for writing stops flat extraction.
    When the output directory can be created, the allocated inodes before
    the one whose file cannot be opened are read in full with their content,
    their files can be opened and rich accepts the messages about them, and
    the inode of the unwritable file is read with its content, [OSError] is
    raised at that inode, the files of the inodes before it stay written and
    no later inode is extracted. *)
Theorem unwritable_file_stops_flat_extraction :
  forall (fuel : nat) (h : host) (image : bytes) (output_dir : string) (t : trace)
         (good rest : list N) (bad : N) (inode : Inode) (content : bytes),
    (forall t' path, mkdir_fails h t' path = false) ->
    inode_indices (seek_read image BLOCK_SIZE BLOCK_SIZE) = good ++ bad :: rest ->
    Forall (extractable fuel image) good ->
    (forall t' i, In i good -> open_fails h t' (flat_path output_dir i) = false) ->
    Forall (fun i => accepted h (flat_path output_dir i)) good ->
    load_inode image bad = Ok inode ->
    file_type inode <> 1 ->
    extract_inode_data fuel image inode = Ok content ->
    (forall t', open_fails h t' (flat_path output_dir bad) = true) ->
    extract_all_files fuel h image output_dir t
    = (Raise OSError,
       t ++ (if path_exists h t output_dir then [] else [EMkdir output_dir])
         ++ flat_events fuel image output_dir good).
Proof.
  intros fuel h image output_dir t good rest bad inode content
    Hmk Hidx Hgood Hopen Hacc Hload Htype Hdata Hbad.
  unfold extract_all_files. rewrite Hidx. unfold bind at 1.
  assert (Hdir : ensure_dir h output_dir t
                 = (Ok tt, t ++ (if path_exists h t output_dir then []
                                 else [EMkdir output_dir]))).
  { unfold ensure_dir, bind, os_path_exists, os_mkdir, ret.
    destruct (path_exists h t output_dir); cbn [negb]; [now rewrite app_nil_r|].
    now rewrite Hmk. }
  rewrite Hdir, for_each_app. unfold bind at 1.
  rewrite for_each_extract_one_open by assumption.
  cbn [for_each]. unfold bind at 1.
  unfold extract_one, bind, lift, write_file. rewrite Hload.
  destruct (N.eqb_spec (file_type inode) 1); [contradiction|].
  fold (flat_path output_dir bad). rewrite Hdata, Hbad.
  now rewrite <- app_assoc.
Qed.

Lemma unwritable_file_stops_flat_extraction_witness :
  inode_indices (seek_read demo_image BLOCK_SIZE BLOCK_SIZE) = [0] ++ 3 :: [5]
  /\ load_inode demo_image 3 = Ok hello_inode
  /\ file_type hello_inode <> 1
  /\ (forall t', open_fails (host_refusing "out/inode3") t' (flat_path "out" 3) = true)
  /\ extract_all_files 3 (host_refusing "out/inode3") demo_image "out" []
     = (Raise OSError,
        [] ++ (if path_exists (host_refusing "out/inode3") [] "out" then []
               else [EMkdir "out"])
           ++ flat_events 3 demo_image "out" [0]).
Proof.
  assert (Hidx : inode_indices (seek_read demo_image BLOCK_SIZE BLOCK_SIZE)
                 = [0] ++ 3 :: [5]) by (vm_compute; reflexivity).
  assert (H0 : load_inode demo_image 0 = Ok root_inode) by (vm_compute; reflexivity).
  assert (H3 : load_inode demo_image 3 = Ok hello_inode) by (vm_compute; reflexivity).
  assert (Hf3 : file_type hello_inode <> 1) by (vm_compute; discriminate).
  assert (Hc3 : extract_inode_data 3 demo_image hello_inode
                = Ok (firstn 600 (data_block "a" ++ data_block "b")))
    by (vm_compute; reflexivity).
  assert (Hgood : Forall (extractable 3 demo_image) [0]).
  { constructor; [|constructor]. exists root_inode. split; [exact H0|].
    intros Hn. now contradiction Hn. }
  assert (Hopen : forall t' i, In i [0] ->
                    open_fails (host_refusing "out/inode3") t' (flat_path "out" i) = false).
  { intros t' i [<-|[]]. reflexivity. }
  assert (Hbad : forall t' : trace,
             open_fails (host_refusing "out/inode3") t' (flat_path "out" 3) = true)
    by (intros t'; reflexivity).
  assert (Hacc : Forall (fun i => accepted (host_refusing "out/inode3")
                                    (flat_path "out" i)) [0]).
  { constructor; [|constructor]. now apply flat_path_accepted. }
  refine (conj Hidx (conj H3 (conj Hf3 (conj Hbad _)))).
  exact (unwritable_file_stops_flat_extraction 3%nat (host_refusing "out/inode3")
           demo_image "out"%string [] [0] [5] 3 hello_inode _
           (fun _ _ => eq_refl) Hidx Hgood Hopen Hacc H3 Hf3 Hc3 Hbad).
Defined.

Lemma flat_path_under (output_dir : string) (i : N) :
  String.prefix output_dir (flat_path output_dir i) = true.
Proof.
  unfold flat_path, path_join. cbn [String.append String.prefix].
  destruct (ascii_dec "/" "i"); [discriminate|].
  destruct (String.eqb output_dir EmptyString || ends_with_slash output_dir);
    apply prefix_append.
Qed.

Lemma extract_one_events (fuel : nat) (h : host) (image : bytes)
    (output_dir : string) (i : N) (t : trace) :
  In i (inode_indices (seek_read image BLOCK_SIZE BLOCK_SIZE)) ->
  exists added,
    snd (extract_one fuel h image output_dir i t) = t ++ added
    /\ Forall (flat_event_ok image output_dir) added.
Proof.
  intros Hin.
  assert (Hnone : exists added, t = t ++ added
                                /\ Forall (flat_event_ok image output_dir) added)
    by (exists []; split; [now rewrite app_nil_r|constructor]).
  unfold extract_one, bind, lift, write_file, print.
  destruct (load_inode image i) as [inode|] eqn:Hload; [|exact Hnone].
  destruct (file_type inode =? 1) eqn:Htype; [exact Hnone|].
  destruct (extract_inode_data fuel image inode) as [content|]; [|exact Hnone].
  fold (flat_path output_dir i).
  destruct (open_fails h t (flat_path output_dir i)); [exact Hnone|].
  assert (Hwrite : flat_event_ok image output_dir
                     (EWrite (flat_path output_dir i) content)).
  { exists i. split; [exact Hin|]. split; [|reflexivity].
    unfold is_directory. now rewrite Hload. }
  destruct (print_fails h (extracted_msg (flat_path output_dir i))
              [flat_path output_dir i]); cbn [snd].
  - exists [EWrite (flat_path output_dir i) content].
    split; [reflexivity|]. constructor; [exact Hwrite|constructor].
  - exists [EWrite (flat_path output_dir i) content;
            EPrint (extracted_msg (flat_path output_dir i))].
    split; [now rewrite <- app_assoc|].
    constructor; [exact Hwrite|constructor; [exact I|constructor]].
Qed.

Lemma for_each_extract_one_events (fuel : nat) (h : host) (image : bytes)
    (output_dir : string) (indices : list N) (t : trace) :
  (forall i, In i indices ->
             In i (inode_indices (seek_read image BLOCK_SIZE BLOCK_SIZE))) ->
  exists added,
    snd (for_each indices (extract_one fuel h image output_dir) t) = t ++ added
    /\ Forall (flat_event_ok image output_dir) added.
Proof.
  revert t. induction indices as [|i rest IH]; intros t Hsub; cbn [for_each].
  - exists []. split; [now rewrite app_nil_r|constructor].
  - unfold bind.
    destruct (extract_one_events fuel h image output_dir i t
                (Hsub i (or_introl eq_refl))) as [first [Hfirst Hok1]].
    destruct (extract_one fuel h image output_dir i t) as [[[]|e] t'];
      cbn [snd] in Hfirst; subst t'.
    + destruct (IH (t ++ first)) as [added [Heq Hok]];
        [intros j Hj; apply Hsub; now right|].
      exists (first ++ added). split; [now rewrite Heq, <- app_assoc|].
      apply Forall_app. now split.
    + exists first. now split.
Qed.

(** X18. Whatever the image and the host, and also when the run fails,
    flat extraction only adds to what was there: the only directory it may
    create is the output directory, and the only files it may write are the
    files [inode<index>] of allocated inodes that are not directories, whose
    paths all begin with the output directory. *)
Theorem flat_extraction_stays_in_output_dir :
  forall (fuel : nat) (h : host) (image : bytes) (output_dir : string) (t : trace),
    exists added,
      snd (extract_all_files fuel h image output_dir t) = t ++ added
      /\ Forall (flat_event_ok image output_dir) added
      /\ Forall (fun path => String.prefix output_dir path = true)
                (written_files added).
Proof.
  intros fuel h image output_dir t.
  assert (Hadd : exists added,
             snd (extract_all_files fuel h image output_dir t) = t ++ added
             /\ Forall (flat_event_ok image output_dir) added).
  { unfold extract_all_files. unfold bind at 1.
    unfold ensure_dir, bind, os_path_exists, os_mkdir, ret.
    destruct (path_exists h t output_dir); cbn [negb].
    - apply for_each_extract_one_events. auto.
    - destruct (mkdir_fails h t output_dir).
      + exists []. split; [now rewrite app_nil_r|constructor].
      + destruct (for_each_extract_one_events fuel h image output_dir
                    (inode_indices (seek_read image BLOCK_SIZE BLOCK_SIZE))
                    (t ++ [EMkdir output_dir]) (fun i Hi => Hi)) as [added [Heq Hok]].
        exists (EMkdir output_dir :: added).
        split; [rewrite Heq, <- app_assoc; reflexivity|].
        constructor; [reflexivity|exact Hok]. }
  destruct Hadd as [added [Heq Hok]]. exists added.
  split; [exact Heq|]. split; [exact Hok|].
  clear Heq. induction Hok as [|[p|p d|s] rest He _ IH]; cbn [written_files];
    try exact IH; [constructor|].
  constructor; [|exact IH]. destruct He as [i [_ [_ ->]]]. apply flat_path_under.
Qed.
